(** * convert_icons: assembling multi-resolution ICO containers

    A shallow embedding of [scripts/convert_icons.py] and the properties of
    its two components: frame collection ([load_square_pngs]) and the
    container serializer ([write_ico]).

    Python integers are unbounded and are modelled by [Z]; [bytes] values
    are lists of [Byte.byte]; the dictionary [size_map] is a [gmap]; the
    exceptions the script can raise are values of [exn], threaded through a
    small error monad, and the file system and console are an explicit
    [World] threaded through a state-and-error monad. *)

From Stdlib Require Import ZArith List Lia Permutation.
From Stdlib Require Import Strings.String Strings.Ascii Strings.Byte.
From Stdlib Require Import Sorting.Sorted.
From stdpp Require Import base option list sorting strings gmap fin_maps.

Local Open Scope Z_scope.

(** ** Exceptions and the error monad *)

(** A path is the list of its components, outermost first. *)
Abbreviation Path := (list string).

(** The exceptions of the script: [FileNotFoundError] and [ValueError] are
    raised by [load_square_pngs] (the spec calls them MissingSource and
    EmptyFrameSet), [struct_error] by [struct.pack] on a value that does
    not fit its field, [KeyError] by a dictionary lookup. The last two are
    raised by the image library on a file it does not open: one it cannot
    identify as an image, and one with more pixels than it accepts; on a
    path with no file behind it the library raises [FileNotFoundError]
    with that path. *)
Inductive exn : Type :=
  | FileNotFoundError (folder : Path)
  | ValueError (folder : Path)
  | KeyError
  | struct_error
  | UnidentifiedImageError (path : Path)
  | DecompressionBombError.

Inductive result (A : Type) : Type :=
  | Ok (a : A)
  | Raise (e : exn).
Arguments Ok {A} a.
Arguments Raise {A} e.

Definition rbind {A B} (m : result A) (k : A -> result B) : result B :=
  match m with
  | Ok a => k a
  | Raise e => Raise e
  end.

Global Instance result_bind : MBind result := fun A B k m => rbind m k.
Global Instance result_ret : MRet result := fun A a => Ok a.

(** ** Bytes and [struct.pack] *)

Definition byte_of_Z (v : Z) : byte :=
  match Byte.of_N (Z.to_N (v mod 256)) with
  | Some b => b
  | None => "000"%byte
  end.

Definition Z_of_byte (b : byte) : Z := Z.of_N (Byte.to_N b).

(** [len(x)] as a Python integer. *)
Definition len {A} (l : list A) : Z := Z.of_nat (length l).

(** Little-endian encoding of [v] on [n] bytes, and its reading. *)
Fixpoint le_bytes (n : nat) (v : Z) : list byte :=
  match n with
  | O => []
  | S n' => byte_of_Z v :: le_bytes n' (v / 256)
  end.

Fixpoint le_value (bs : list byte) : Z :=
  match bs with
  | [] => 0
  | b :: bs' => Z_of_byte b + 256 * le_value bs'
  end.

(** One field of a [struct.pack] format string with the ["<"] prefix: an
    unsigned integer on [n] bytes, little-endian and unpadded. A value
    outside [0 .. 256^n - 1] raises [struct.error]. *)
Definition pack_field (n : nat) (v : Z) : result (list byte) :=
  if (0 <=? v) && (v <? 256 ^ Z.of_nat n) then Ok (le_bytes n v)
  else Raise struct_error.

Definition pack_B := pack_field 1.
Definition pack_H := pack_field 2.
Definition pack_I := pack_field 4.

(** [struct.pack("<HHH", a, b, c)] *)
Definition struct_pack_HHH (a b c : Z) : result (list byte) :=
  pa ← pack_H a;
  pb ← pack_H b;
  pc ← pack_H c;
  Ok (pa ++ pb ++ pc).

(** [struct.pack("<BBBBHHII", b0, b1, b2, b3, h0, h1, i0, i1)] *)
Definition struct_pack_BBBBHHII (b0 b1 b2 b3 h0 h1 i0 i1 : Z)
  : result (list byte) :=
  p0 ← pack_B b0;
  p1 ← pack_B b1;
  p2 ← pack_B b2;
  p3 ← pack_B b3;
  p4 ← pack_H h0;
  p5 ← pack_H h1;
  p6 ← pack_I i0;
  p7 ← pack_I i1;
  Ok (p0 ++ p1 ++ p2 ++ p3 ++ p4 ++ p5 ++ p6 ++ p7).

(** ** [sorted]

    Python's [sorted] is a stable sort by [<=] on the keys. Stability fixes
    its result as a function of the input, so any stable sort computes it;
    this one inserts each element, from the last to the first, in front of
    the first element whose key is not smaller. *)
Section Sorted.
Context {A K : Type} (key : A -> K) (le : K -> K -> bool).

Fixpoint insort (x : A) (l : list A) : list A :=
  match l with
  | [] => [x]
  | y :: l' => if le (key x) (key y) then x :: y :: l' else y :: insort x l'
  end.

Definition sorted (l : list A) : list A := foldr insort [] l.
End Sorted.

(** ** Frames *)

Record IconFrame : Type := mkIconFrame {
  width : Z;
  height : Z;
  bit_count : Z;
  data : list byte
}.

(** ** The container serializer, [write_ico] (in memory) *)

(** [frame.width if frame.width < 256 else 0], and the same of the height. *)
Definition width_byte (frame : IconFrame) : Z :=
  if width frame <? 256 then width frame else 0.

Definition height_byte (frame : IconFrame) : Z :=
  if height frame <? 256 then height frame else 0.

(** The loop [for frame in ordered], with the variables it updates:
    [header], [data_chunks] and [offset]. *)
Fixpoint write_ico_loop (ordered : list IconFrame) (header : list byte)
    (data_chunks : list (list byte)) (offset : Z)
  : result (list byte * list (list byte)) :=
  match ordered with
  | [] => Ok (header, data_chunks)
  | frame :: rest =>
      entry ← struct_pack_BBBBHHII (width_byte frame) (height_byte frame)
                 0 0 1 (bit_count frame) (len (data frame)) offset;
      write_ico_loop rest (header ++ entry) (data_chunks ++ [data frame])
        (offset + len (data frame))
  end.

(** Lines 59 to 82 of the script: the header with its directory, and the
    payload chunks, as they stand when the destination file is opened. *)
Definition ico_image (images : list IconFrame)
  : result (list byte * list (list byte)) :=
  let ordered := sorted width Z.leb images in
  header ← struct_pack_HHH 0 1 (len ordered);
  write_ico_loop ordered header [] (6 + 16 * len ordered).

(** The bytes that lines 84 to 87 write to the destination: the header,
    then every chunk. *)
Definition ico_bytes (images : list IconFrame) : result (list byte) :=
  '(header, data_chunks) ← ico_image images;
  Ok (header ++ concat data_chunks).

(** ** The reader's view of a container

    The layout of the format: a directory entry is 16 bytes, entry [k]
    starts at byte [6 + 16 * k]. These definitions are the reading side of
    [struct.pack]; the script has no reader of its own. *)

Definition slice {A} (start n : nat) (l : list A) : list A :=
  take n (drop start l).

Record DirEntry : Type := mkDirEntry {
  e_width : Z;
  e_height : Z;
  e_color_count : Z;
  e_reserved : Z;
  e_planes : Z;
  e_bit_count : Z;
  e_size : Z;
  e_offset : Z
}.

Definition unpack_BBBBHHII (e : list byte) : DirEntry :=
  {| e_width := le_value (slice 0 1 e);
     e_height := le_value (slice 1 1 e);
     e_color_count := le_value (slice 2 1 e);
     e_reserved := le_value (slice 3 1 e);
     e_planes := le_value (slice 4 2 e);
     e_bit_count := le_value (slice 6 2 e);
     e_size := le_value (slice 8 4 e);
     e_offset := le_value (slice 12 4 e) |}.

Definition read_entry (out : list byte) (k : nat) : DirEntry :=
  unpack_BBBBHHII (slice (6 + 16 * k) 16 out).

(** The count field of the header. *)
Definition read_count (out : list byte) : Z := le_value (slice 4 2 out).

(** The payload an entry points to. *)
Definition read_payload (out : list byte) (e : DirEntry) : list byte :=
  slice (Z.to_nat (e_offset e)) (Z.to_nat (e_size e)) out.

(** A reader takes the dimension byte 0 to mean 256. *)
Definition read_dimension (b : Z) : Z := if b =? 0 then 256 else b.

(** The directory entry the serializer is to write for [frame] at
    [offset]. *)
Definition entry_of (frame : IconFrame) (offset : Z) : DirEntry :=
  {| e_width := width_byte frame;
     e_height := height_byte frame;
     e_color_count := 0;
     e_reserved := 0;
     e_planes := 1;
     e_bit_count := bit_count frame;
     e_size := len (data frame);
     e_offset := offset |}.

(** [sum(len(frame.data) for frame in frames)] *)
Definition payload_total (frames : list IconFrame) : Z :=
  len (concat (data <$> frames)).

(** ** The world: asset folders, output files, console *)

(** What the image library reports of a PNG file, and the file's bytes.
    The files of an asset folder are images the library opens; a file it
    cannot decode, and the errors of the operating system, are outside
    this model. A [PngFile] is a file that the library opens and converts:
    [Image_open] and [convert_RGBA] below are the library on such a file,
    where they raise nothing. Files on which the library raises are the
    [Fails] entries of a [DiskFile] listing, further down, and
    [load_square_pngs_disk] is frame collection over such a listing. *)
Record PngFile : Type := mkPngFile {
  png_width : Z;
  png_height : Z;
  png_bands : list string;
  png_bytes : list byte
}.

(** A [PIL.Image]: its size and the bands of its mode. *)
Record Image : Type := mkImage {
  im_width : Z;
  im_height : Z;
  im_bands : list string
}.

(** [Image.open(png_path)] *)
Definition Image_open (file : PngFile) : Image :=
  mkImage (png_width file) (png_height file) (png_bands file).

(** [img.convert("RGBA")]: the same size, in mode RGBA. *)
Definition convert_RGBA (img : Image) : Image :=
  mkImage (im_width img) (im_height img) ["R"; "G"; "B"; "A"]%string.

Definition getbands (image : Image) : list string := im_bands image.

(** The lines the script prints. *)
Inductive line : Type :=
  | Skipping (name : string) (w h : Z)
  | Converting (source destination : Path)
  | Wrote (destination : Path).

(** An asset folder is the list of its entries, a name and a file each, in
    the order the operating system enumerates them. The folders are only
    read; [dirs] and [files] are what the script creates and writes. A path
    that exists without being a directory is a folder that lists nothing.
    The two sides are kept apart: this is the world of a run that writes
    outside the asset folders it reads, where a file written is never a
    file listed. What is stated of several conversions in a row says so in
    a hypothesis. *)
Record World : Type := mkWorld {
  folders : gmap Path (list (string * PngFile));
  dirs : gset Path;
  files : gmap Path (list byte);
  stdout : list line
}.

Definition M (A : Type) : Type := World -> result A * World.

Global Instance M_bind : MBind M := fun A B k m w =>
  match m w with
  | (Ok a, w') => k a w'
  | (Raise e, w') => (Raise e, w')
  end.
Global Instance M_ret : MRet M := fun A a w => (Ok a, w).

Definition raise {A} (e : exn) : M A := fun w => (Raise e, w).
Definition lift {A} (r : result A) : M A := fun w => (r, w).

Definition print (l : line) : M unit := fun w =>
  (Ok tt, mkWorld (folders w) (dirs w) (files w) (stdout w ++ [l])).

(** [folder.exists()], of a source folder: a path among the asset
    folders. *)
Definition exists_ (folder : Path) : M bool := fun w =>
  (Ok (bool_decide (is_Some (folders w !! folder))), w).

(** [path.parent] *)
Definition parent (p : Path) : Path := removelast p.

(** [p.mkdir(parents=True, exist_ok=True)]: [p] and its ancestors. *)
Definition mkdir_parents (p : Path) : M unit := fun w =>
  (Ok tt,
   mkWorld (folders w)
     (dirs w ∪ list_to_set (map (fun n => take n p) (seq 1 (length p))))
     (files w) (stdout w)).

(** [destination.open("wb")] creates the file or truncates it. *)
Definition open_wb (p : Path) : M unit := fun w =>
  (Ok tt, mkWorld (folders w) (dirs w) (<[p := []]> (files w)) (stdout w)).

(** [ico_file.write(bs)] appends to the open file. *)
Definition file_write (p : Path) (bs : list byte) : M unit := fun w =>
  (Ok tt,
   mkWorld (folders w) (dirs w) (alter (fun old => old ++ bs) p (files w))
     (stdout w)).

(** ** [write_ico] *)

(** [for chunk in data_chunks: ico_file.write(chunk)] *)
Fixpoint write_chunks (p : Path) (data_chunks : list (list byte)) : M unit :=
  match data_chunks with
  | [] => mret tt
  | chunk :: rest => _ ← file_write p chunk; write_chunks p rest
  end.

Definition write_ico (images : list IconFrame) (destination : Path) : M unit :=
  _ ← mkdir_parents (parent destination);
  '(header, data_chunks) ← lift (ico_image images);
  _ ← open_wb destination;
  _ ← file_write destination header;
  write_chunks destination data_chunks.

(** ** Frame collection, [load_square_pngs] *)

(** Python's order on the tuples [(width, height)]. *)
Definition tuple_leb (a b : Z * Z) : bool :=
  (a.1 <? b.1) || ((a.1 =? b.1) && (a.2 <=? b.2)).

(** [size_map[key]] *)
Definition getitem (size_map : gmap (Z * Z) IconFrame) (key : Z * Z)
  : result IconFrame :=
  match size_map !! key with
  | Some frame => Ok frame
  | None => Raise KeyError
  end.

(** [[size_map[key] for key in keys]] *)
Fixpoint getitems (size_map : gmap (Z * Z) IconFrame) (keys : list (Z * Z))
  : result (list IconFrame) :=
  match keys with
  | [] => Ok []
  | key :: rest =>
      frame ← getitem size_map key;
      frames ← getitems size_map rest;
      Ok (frame :: frames)
  end.

(** [name] ends with [suffix]. *)
Definition endswith (name suffix : string) : bool :=
  bool_decide (list_ascii_of_string suffix `suffix_of` list_ascii_of_string name).

Section FrameCollection.
(** [pathlib] matches and compares file names through [normcase]: the
    identity on POSIX, lower-casing on Windows. *)
Context (normcase : string -> string).

(** [folder.glob("*.png")] *)
Definition glob_png (folder : Path) : M (list (string * PngFile)) := fun w =>
  (Ok (filter (fun p => endswith (normcase p.1) ".png")
         (default [] (folders w !! folder))), w).

(** Paths of one folder compare as their names do. *)
Definition path_leb (a b : string) : bool :=
  String.leb (normcase a) (normcase b).

(** The loop [for png_path in sorted(folder.glob("*.png"))]. *)
Fixpoint load_loop (paths : list (string * PngFile))
    (size_map : gmap (Z * Z) IconFrame) : M (gmap (Z * Z) IconFrame) :=
  match paths with
  | [] => mret size_map
  | (name, file) :: rest =>
      let img := Image_open file in
      let image := convert_RGBA img in
      if negb (im_width image =? im_height image) then
        _ ← print (Skipping name (im_width image) (im_height image));
        load_loop rest size_map
      else
        let key := (im_width image, im_height image) in
        let bit_count :=
          if bool_decide ("A"%string ∈ getbands image) then 32 else 24 in
        let frame :=
          mkIconFrame (im_width image) (im_height image) bit_count
            (png_bytes file) in
        load_loop rest (<[key := frame]> size_map)
  end.

Definition load_square_pngs (folder : Path) : M (list IconFrame) :=
  found ← exists_ folder;
  if negb found then raise (FileNotFoundError folder)
  else
    paths ← glob_png folder;
    size_map ← load_loop (sorted fst path_leb paths) ∅;
    if bool_decide (size size_map = 0%nat) then raise (ValueError folder)
    else
      lift (getitems size_map
              (sorted id tuple_leb (map_to_list size_map).*1)).

Definition convert_folder (source destination : Path) : M unit :=
  _ ← print (Converting source destination);
  images ← load_square_pngs source;
  _ ← write_ico images destination;
  print (Wrote destination).
End FrameCollection.

(** The [normcase] of POSIX paths. *)
Definition posix_normcase (name : string) : string := name.

(** ** Specification-side definitions *)

(** The directory of [ordered], the first payload at [offset]. *)
Fixpoint directory (ordered : list IconFrame) (offset : Z) : list DirEntry :=
  match ordered with
  | [] => []
  | frame :: rest =>
      entry_of frame offset :: directory rest (offset + len (data frame))
  end.

Definition encode_entry (e : DirEntry) : list byte :=
  le_bytes 1 (e_width e) ++ le_bytes 1 (e_height e)
  ++ le_bytes 1 (e_color_count e) ++ le_bytes 1 (e_reserved e)
  ++ le_bytes 2 (e_planes e) ++ le_bytes 2 (e_bit_count e)
  ++ le_bytes 4 (e_size e) ++ le_bytes 4 (e_offset e).

Definition in_range (n : nat) (v : Z) : bool :=
  (0 <=? v) && (v <? 256 ^ Z.of_nat n).

(** Every field of the entry fits its place in the format. *)
Definition entry_fits (e : DirEntry) : bool :=
  in_range 1 (e_width e) && in_range 1 (e_height e)
  && in_range 1 (e_color_count e) && in_range 1 (e_reserved e)
  && in_range 2 (e_planes e) && in_range 2 (e_bit_count e)
  && in_range 4 (e_size e) && in_range 4 (e_offset e).

(** The order [sorted] puts the elements in. *)
Definition key_le {A K : Type} (key : A -> K) (le : K -> K -> bool)
  : relation A :=
  fun x y => le (key x) (key y) = true.

(** The six bytes of the header for [n] frames. *)
Definition ico_header (n : Z) : list byte :=
  le_bytes 2 0 ++ le_bytes 2 1 ++ le_bytes 2 n.

(** The frame count and every directory entry fit their fields: the
    condition under which no [struct.pack] of [write_ico] raises. *)
Definition frames_fit (images : list IconFrame) : bool :=
  let ordered := sorted width Z.leb images in
  in_range 2 (len ordered)
  && forallb entry_fits (directory ordered (6 + 16 * len ordered)).

(** A sufficient condition for [frames_fit], on the frames as given: the
    count fits 16 bits, the whole container 32 bits, no dimension is
    negative and every bit count fits 16 bits. *)
Definition within_capacity (images : list IconFrame) : Prop :=
  len images < 65536
  /\ 6 + 16 * len images + payload_total images < 2 ^ 32
  /\ Forall (fun frame => 0 <= width frame /\ 0 <= height frame
                          /\ 0 <= bit_count frame < 65536) images.

(** Bytes given by their values. *)
Definition bytes (l : list Z) : list byte := byte_of_Z <$> l.

(** Frames to run the serializer on. *)
Definition frame16 : IconFrame := mkIconFrame 16 16 24 (replicate 50 "001"%byte).
Definition frame32 : IconFrame := mkIconFrame 32 32 32 (replicate 120 "002"%byte).
Definition frame512 : IconFrame := mkIconFrame 512 512 32 (bytes [1; 2; 3]).

(** The frame the loop of [load_square_pngs] makes of a square file. *)
Definition frame_of (file : PngFile) : IconFrame :=
  let image := convert_RGBA (Image_open file) in
  mkIconFrame (im_width image) (im_height image)
    (if bool_decide ("A"%string ∈ getbands image) then 32 else 24)
    (png_bytes file).

Definition is_square (file : PngFile) : bool :=
  png_width file =? png_height file.

(** The dictionary the loop leaves, and the lines it prints. *)
Fixpoint collect (paths : list (string * PngFile))
    (size_map : gmap (Z * Z) IconFrame) : gmap (Z * Z) IconFrame :=
  match paths with
  | [] => size_map
  | (name, file) :: rest =>
      if is_square file
      then collect rest
             (<[(png_width file, png_height file) := frame_of file]> size_map)
      else collect rest size_map
  end.

Fixpoint skipped (paths : list (string * PngFile)) : list line :=
  match paths with
  | [] => []
  | (name, file) :: rest =>
      if is_square file then skipped rest
      else Skipping name (png_width file) (png_height file) :: skipped rest
  end.

(** The files of a folder that the pattern matches, and these in the order
    the loop goes through them, sorted by path. *)
Definition candidates (normcase : string -> string)
    (entries : list (string * PngFile)) : list (string * PngFile) :=
  filter (fun p => endswith (normcase p.1) ".png") entries.

Definition listing (normcase : string -> string)
    (entries : list (string * PngFile)) : list (string * PngFile) :=
  sorted fst (path_leb normcase) (candidates normcase entries).

(** What holds of every item of [size_map]. *)
Definition item_ok (key : Z * Z) (frame : IconFrame) : Prop :=
  key = (width frame, height frame) /\ width frame = height frame
  /\ bit_count frame = 32.

(** A world with one asset folder, and files to put in it. *)
Definition icons : Path := ["Assets.xcassets"; "AppIcon.appiconset"]%string.
Definition ico : Path := ["installer"; "assets"; "Clop.ico"]%string.

Definition world_with (entries : list (string * PngFile)) : World :=
  mkWorld {[ icons := entries ]} ∅ ∅ [].

Definition rgb16 : PngFile :=
  mkPngFile 16 16 ["R"; "G"; "B"]%string (bytes [1]).
Definition rgba16 : PngFile :=
  mkPngFile 16 16 ["R"; "G"; "B"; "A"]%string (bytes [2]).
Definition palette16 : PngFile :=
  mkPngFile 16 16 ["P"]%string (bytes [3]).
Definition rgba32 : PngFile :=
  mkPngFile 32 32 ["R"; "G"; "B"; "A"]%string (bytes [4; 5]).
Definition banner : PngFile :=
  mkPngFile 32 16 ["R"; "G"; "B"; "A"]%string (bytes [6]).

(** ** The command line: [main]

    [parse_args] is [argparse]; what is modelled is the namespace it
    returns, and its defaults. *)

Record Namespace : Type := mkNamespace {
  appicon_src : Path;
  appicon_dest : Path;
  clop_src : Path;
  clop_dest : Path;
  skip_appicon : bool;
  skip_clop : bool
}.

Section Defaults.
(** [ROOT = Path(__file__).resolve().parents[1]] *)
Context (ROOT : Path).

Definition DEFAULT_APPICON_SRC : Path :=
  ROOT ++ ["src"; "App"; "Assets"; "Brand"; "Assets.xcassets";
           "AppIcon.appiconset"]%string.
Definition DEFAULT_CLOP_SRC : Path :=
  ROOT ++ ["src"; "App"; "Assets"; "Brand"; "Assets.xcassets";
           "clop.imageset"]%string.
Definition DEFAULT_OUTPUT_DIR : Path := ROOT ++ ["installer"; "assets"]%string.
Definition DEFAULT_APPICON_DEST : Path := DEFAULT_OUTPUT_DIR ++ ["Clop.ico"]%string.
Definition DEFAULT_CLOP_DEST : Path := DEFAULT_OUTPUT_DIR ++ ["ClopMark.ico"]%string.

(** The namespace of a command line with no argument. *)
Definition default_args : Namespace :=
  mkNamespace DEFAULT_APPICON_SRC DEFAULT_APPICON_DEST
    DEFAULT_CLOP_SRC DEFAULT_CLOP_DEST false false.
End Defaults.

(** The list [tasks] that [main] builds. *)
Definition schedule (args : Namespace) : list (Path * Path) :=
  let tasks := [] in
  let tasks :=
    if negb (skip_appicon args)
    then tasks ++ [(appicon_src args, appicon_dest args)] else tasks in
  let tasks :=
    if negb (skip_clop args)
    then tasks ++ [(clop_src args, clop_dest args)] else tasks in
  tasks.

(** How a run of [main] ends: it returns, it raises [SystemExit] with a
    message, or an exception of a conversion goes through it. *)
Inductive outcome : Type :=
  | Returned
  | SystemExit (message : string)
  | Uncaught (e : exn).

Section Main.
Context (normcase : string -> string).

(** [for source, destination in tasks: convert_folder(source, destination)] *)
Fixpoint run_tasks (tasks : list (Path * Path)) : M unit :=
  match tasks with
  | [] => mret tt
  | (source, destination) :: rest =>
      _ ← convert_folder normcase source destination;
      run_tasks rest
  end.

(** [main], from the parsed arguments on. *)
Definition main (args : Namespace) (w : World) : outcome * World :=
  let tasks := schedule args in
  match tasks with
  | [] => (SystemExit "No conversion targets were scheduled.", w)
  | _ :: _ =>
      match run_tasks tasks w with
      | (Ok _, w') => (Returned, w')
      | (Raise e, w') => (Uncaught e, w')
      end
  end.
End Main.

(** ** Reading a whole container back *)

(** The frame that entry [k] of a container describes, the dimension byte 0
    read as 256. *)
Definition read_frame (out : list byte) (k : nat) : IconFrame :=
  let e := read_entry out k in
  mkIconFrame (read_dimension (e_width e)) (read_dimension (e_height e))
    (e_bit_count e) (read_payload out e).

Definition read_frames (out : list byte) : list IconFrame :=
  read_frame out <$> seq 0 (Z.to_nat (read_count out)).

(** The line printed for a file that is not square. *)
Definition skip_line (p : string * PngFile) : line :=
  Skipping p.1 (png_width p.2) (png_height p.2).

(** A second folder and a world with two asset folders. *)
Definition glyphs : Path := ["Assets.xcassets"; "clop.imageset"]%string.
Definition mark : Path := ["installer"; "assets"; "ClopMark.ico"]%string.


(** ** Frame collection over files the library may not open

    The script catches nothing: when [Image.open], [convert] or
    [read_bytes] raises on a file, the exception leaves the loop and
    [load_square_pngs]. A file of a folder is here either one the library
    opens, as before, or one on which it raises [e]. *)

Inductive DiskFile : Type :=
  | Opens (file : PngFile)
  | Fails (e : exn).

Section FrameCollectionDisk.
Context (normcase : string -> string).

(** [folder.glob("*.png")] *)
Definition glob_png_disk (disk : gmap Path (list (string * DiskFile)))
    (folder : Path) : M (list (string * DiskFile)) := fun w =>
  (Ok (filter (fun p => endswith (normcase p.1) ".png")
         (default [] (disk !! folder))), w).

(** The loop [for png_path in sorted(folder.glob("*.png"))]. *)
Fixpoint load_loop_disk (paths : list (string * DiskFile))
    (size_map : gmap (Z * Z) IconFrame) : M (gmap (Z * Z) IconFrame) :=
  match paths with
  | [] => mret size_map
  | (name, Fails e) :: rest => raise e
  | (name, Opens file) :: rest =>
      let img := Image_open file in
      let image := convert_RGBA img in
      if negb (im_width image =? im_height image) then
        _ ← print (Skipping name (im_width image) (im_height image));
        load_loop_disk rest size_map
      else
        let key := (im_width image, im_height image) in
        let bit_count :=
          if bool_decide ("A"%string ∈ getbands image) then 32 else 24 in
        let frame :=
          mkIconFrame (im_width image) (im_height image) bit_count
            (png_bytes file) in
        load_loop_disk rest (<[key := frame]> size_map)
  end.

Definition load_square_pngs_disk (disk : gmap Path (list (string * DiskFile)))
    (folder : Path) : M (list IconFrame) :=
  if negb (bool_decide (is_Some (disk !! folder)))
  then raise (FileNotFoundError folder)
  else
    paths ← glob_png_disk disk folder;
    size_map ← load_loop_disk (sorted fst (path_leb normcase) paths) ∅;
    if bool_decide (size size_map = 0%nat) then raise (ValueError folder)
    else
      lift (getitems size_map
              (sorted id tuple_leb (map_to_list size_map).*1)).

(** The matched files of a folder in the order of the loop. *)
Definition listing_disk (entries : list (string * DiskFile))
  : list (string * DiskFile) :=
  sorted fst (path_leb normcase)
    (filter (fun p => endswith (normcase p.1) ".png") entries).
End FrameCollectionDisk.

(** The exception of the first file, in the order given, that the library
    does not open; and the files before it, all of them when there is
    none. *)
Fixpoint first_failure (paths : list (string * DiskFile)) : option exn :=
  match paths with
  | [] => None
  | (_, Fails e) :: _ => Some e
  | (_, Opens _) :: rest => first_failure rest
  end.

Fixpoint opened_before (paths : list (string * DiskFile))
  : list (string * PngFile) :=
  match paths with
  | [] => []
  | (_, Fails _) :: _ => []
  | (name, Opens file) :: rest => (name, file) :: opened_before rest
  end.

(** A folder of files the library opens, as a listing on disk. *)
Definition on_disk (entries : list (string * PngFile))
  : list (string * DiskFile) :=
  (fun p => (p.1, Opens p.2)) <$> entries.

(** The bit depth of a source file in the words of the spec, 32 if its
    channels include alpha and 24 otherwise, to compare with what the loop
    computes. *)
Definition source_bit_depth (file : PngFile) : Z :=
  if bool_decide ("A"%string ∈ png_bands file) then 32 else 24.

(** * Properties *)

Lemma Ok_inj {A} (a b : A) : Ok a = Ok b -> a = b.
Proof. congruence. Qed.

(** ** Bytes *)

Lemma Z_of_byte_of_Z (v : Z) : Z_of_byte (byte_of_Z v) = v mod 256.
Proof.
  unfold Z_of_byte, byte_of_Z.
  assert (Hr : 0 <= v mod 256 < 256) by (apply Z.mod_pos_bound; lia).
  destruct (Byte.of_N (Z.to_N (v mod 256))) as [b|] eqn:Hb.
  - apply Byte.to_of_N in Hb. rewrite Hb. lia.
  - apply Byte.of_N_None_iff in Hb. lia.
Qed.

Lemma Z_of_byte_range (b : byte) : 0 <= Z_of_byte b < 256.
Proof.
  unfold Z_of_byte. pose proof (Byte.to_N_bounded b). lia.
Qed.

Lemma le_bytes_length (n : nat) (v : Z) : length (le_bytes n v) = n.
Proof. revert v. induction n as [|n IH]; intros v; simpl; auto. Qed.

Lemma le_value_le_bytes (n : nat) (v : Z) :
  0 <= v < 256 ^ Z.of_nat n -> le_value (le_bytes n v) = v.
Proof.
  revert v. induction n as [|n IH]; intros v Hv.
  - simpl in *. lia.
  - cbn [le_bytes le_value]. rewrite Z_of_byte_of_Z.
    rewrite Nat2Z.inj_succ, Z.pow_succ_r in Hv by lia.
    rewrite IH.
    + pose proof (Z.div_mod v 256). lia.
    + split; [apply Z.div_pos; lia|].
      apply Z.div_lt_upper_bound; lia.
Qed.

Lemma in_range_spec (n : nat) (v : Z) :
  in_range n v = true <-> 0 <= v < 256 ^ Z.of_nat n.
Proof. unfold in_range. rewrite andb_true_iff, Z.leb_le, Z.ltb_lt. tauto. Qed.

Lemma pack_field_eq (n : nat) (v : Z) :
  pack_field n v = if in_range n v then Ok (le_bytes n v) else Raise struct_error.
Proof. reflexivity. Qed.

(** ** [struct.pack] of a directory entry *)

Lemma struct_pack_entry (frame : IconFrame) (offset : Z) :
  struct_pack_BBBBHHII (width_byte frame) (height_byte frame) 0 0 1
    (bit_count frame) (len (data frame)) offset
  = if entry_fits (entry_of frame offset)
    then Ok (encode_entry (entry_of frame offset))
    else Raise struct_error.
Proof.
  unfold struct_pack_BBBBHHII, pack_B, pack_H, pack_I, entry_fits.
  rewrite !pack_field_eq. cbn [entry_of e_width e_height e_color_count
    e_reserved e_planes e_bit_count e_size e_offset].
  change (in_range 1 0) with true. change (in_range 2 1) with true.
  destruct (in_range 1 (width_byte frame)); [|reflexivity].
  destruct (in_range 1 (height_byte frame)); [|reflexivity].
  destruct (in_range 2 (bit_count frame)); [|reflexivity].
  destruct (in_range 4 (len (data frame))); [|reflexivity].
  destruct (in_range 4 offset); reflexivity.
Qed.

Lemma encode_entry_length (e : DirEntry) : length (encode_entry e) = 16%nat.
Proof. reflexivity. Qed.

Lemma unpack_encode_entry (e : DirEntry) :
  entry_fits e = true -> unpack_BBBBHHII (encode_entry e) = e.
Proof.
  unfold entry_fits. rewrite !andb_true_iff, !in_range_spec.
  intros [[[[[[[H0 H1] H2] H3] H4] H5] H6] H7].
  destruct e as [a b c d p q s o].
  cbn [e_width e_height e_color_count e_reserved e_planes e_bit_count
       e_size e_offset] in *.
  unfold unpack_BBBBHHII.
  change (slice 0 1 (encode_entry (mkDirEntry a b c d p q s o)))
    with (le_bytes 1 a).
  change (slice 1 1 (encode_entry (mkDirEntry a b c d p q s o)))
    with (le_bytes 1 b).
  change (slice 2 1 (encode_entry (mkDirEntry a b c d p q s o)))
    with (le_bytes 1 c).
  change (slice 3 1 (encode_entry (mkDirEntry a b c d p q s o)))
    with (le_bytes 1 d).
  change (slice 4 2 (encode_entry (mkDirEntry a b c d p q s o)))
    with (le_bytes 2 p).
  change (slice 6 2 (encode_entry (mkDirEntry a b c d p q s o)))
    with (le_bytes 2 q).
  change (slice 8 4 (encode_entry (mkDirEntry a b c d p q s o)))
    with (le_bytes 4 s).
  change (slice 12 4 (encode_entry (mkDirEntry a b c d p q s o)))
    with (le_bytes 4 o).
  rewrite !le_value_le_bytes by assumption. reflexivity.
Qed.

(** ** Slices of concatenations *)

Lemma len_app {A} (l1 l2 : list A) : len (l1 ++ l2) = len l1 + len l2.
Proof. unfold len. rewrite length_app. lia. Qed.

Lemma slice_blocks {A} (n : nat) (blocks : list (list A)) (k : nat)
    (b pre post : list A) :
  Forall (fun b => length b = n) blocks ->
  blocks !! k = Some b ->
  slice (length pre + n * k) n (pre ++ concat blocks ++ post) = b.
Proof.
  intros Hn. unfold slice. rewrite drop_app_add. revert k.
  induction Hn as [|b0 bs Hb0 Hbs IH]; intros k Hk; [done|].
  destruct k as [|k]; simpl in Hk.
  - injection Hk as ->. rewrite Nat.mul_0_r. simpl.
    rewrite <- app_assoc. by apply take_app_length'.
  - replace (n * S k)%nat with (n + n * k)%nat by lia.
    simpl. rewrite <- app_assoc, (drop_app_add' b0 _ n (n * k)) by done.
    by apply IH.
Qed.

Lemma slice_concat {A} (ls : list (list A)) (k : nat) (x pre : list A) :
  ls !! k = Some x ->
  slice (length pre + length (concat (take k ls))) (length x)
    (pre ++ concat ls) = x.
Proof.
  intros Hk. unfold slice. rewrite drop_app_add.
  rewrite <- (take_drop_middle ls k x Hk) at 2.
  rewrite concat_app, drop_app_length. simpl.
  by rewrite take_app_length.
Qed.

(** ** The serializer *)

Lemma directory_length (ordered : list IconFrame) (offset : Z) :
  length (directory ordered offset) = length ordered.
Proof.
  revert offset. induction ordered as [|f rest IH]; intros offset; simpl; auto.
Qed.

Lemma directory_lookup (ordered : list IconFrame) (offset : Z) (k : nat)
    (frame : IconFrame) :
  ordered !! k = Some frame ->
  directory ordered offset !! k
  = Some (entry_of frame (offset + payload_total (take k ordered))).
Proof.
  revert offset k. induction ordered as [|f rest IH]; intros offset k Hk; [done|].
  destruct k as [|k]; simpl in Hk.
  - injection Hk as ->. simpl. unfold payload_total. simpl.
    f_equal. f_equal. unfold len. simpl. lia.
  - simpl. rewrite (IH _ _ Hk). do 2 f_equal.
    unfold payload_total. simpl. rewrite len_app, Z.add_assoc. reflexivity.
Qed.

Lemma write_ico_loop_eq (ordered : list IconFrame) (header : list byte)
    (data_chunks : list (list byte)) (offset : Z) :
  write_ico_loop ordered header data_chunks offset
  = if forallb entry_fits (directory ordered offset)
    then Ok (header ++ concat (encode_entry <$> directory ordered offset),
             data_chunks ++ (data <$> ordered))
    else Raise struct_error.
Proof.
  revert header data_chunks offset.
  induction ordered as [|f rest IH]; intros header data_chunks offset.
  - simpl. by rewrite !app_nil_r.
  - cbn [write_ico_loop directory forallb]. rewrite struct_pack_entry.
    destruct (entry_fits (entry_of f offset)); [|reflexivity].
    cbn [mbind result_bind rbind andb]. rewrite IH.
    destruct (forallb _ _); [|reflexivity].
    cbn [fmap list_fmap concat]. by rewrite <- !app_assoc.
Qed.

Lemma ico_image_eq (images : list IconFrame) :
  ico_image images
  = let ordered := sorted width Z.leb images in
    if frames_fit images
    then Ok (ico_header (len ordered)
               ++ concat (encode_entry <$>
                            directory ordered (6 + 16 * len ordered)),
             data <$> ordered)
    else Raise struct_error.
Proof.
  unfold ico_image, frames_fit, struct_pack_HHH, pack_H.
  rewrite !pack_field_eq. cbn zeta.
  change (in_range 2 0) with true. change (in_range 2 1) with true.
  cbn [mbind result_bind rbind].
  destruct (in_range 2 (len (sorted width Z.leb images))); [|reflexivity].
  cbn [mbind result_bind rbind andb]. rewrite write_ico_loop_eq.
  destruct (forallb _ _); reflexivity.
Qed.

Lemma ico_bytes_eq (images : list IconFrame) :
  ico_bytes images
  = let ordered := sorted width Z.leb images in
    if frames_fit images
    then Ok (ico_header (len ordered)
               ++ concat (encode_entry <$>
                            directory ordered (6 + 16 * len ordered))
               ++ concat (data <$> ordered))
    else Raise struct_error.
Proof.
  unfold ico_bytes. rewrite ico_image_eq. cbn zeta.
  destruct (frames_fit images); [|reflexivity].
  cbn [mbind result_bind rbind]. by rewrite <- app_assoc.
Qed.

(** ** [sorted] *)

Section SortedFacts.
Context {A K : Type} (key : A -> K) (le : K -> K -> bool).

Local Abbreviation R := (key_le key le).

Lemma insort_Permutation (x : A) (l : list A) : insort key le x l ≡ₚ x :: l.
Proof.
  induction l as [|y l IH]; simpl; [done|].
  destruct (le (key x) (key y)); [done|].
  rewrite IH. apply Permutation_swap.
Qed.

Lemma sorted_Permutation (l : list A) : sorted key le l ≡ₚ l.
Proof.
  induction l as [|x l IH]; simpl; [done|].
  rewrite insort_Permutation. by rewrite IH.
Qed.

Lemma sorted_length (l : list A) : length (sorted key le l) = length l.
Proof. apply Permutation_length, sorted_Permutation. Qed.

Lemma insort_HdRel (x : A) (l : list A) :
  HdRel R x l -> insort key le x l = x :: l.
Proof.
  destruct 1 as [|y l Hxy]; simpl; [done|].
  unfold key_le in Hxy. by rewrite Hxy.
Qed.

(** A list in order already is left as it is. *)
Lemma sorted_fixed (l : list A) : Sorted R l -> sorted key le l = l.
Proof.
  induction 1 as [|x l Hl IH Hx]; simpl; [done|].
  rewrite IH. by apply insort_HdRel.
Qed.

Hypothesis le_total : forall a b, le a b = true \/ le b a = true.

Lemma insort_Sorted (x : A) (l : list A) :
  Sorted R l -> Sorted R (insort key le x l).
Proof.
  induction 1 as [|y l Hl IH Hy]; simpl.
  - by repeat constructor.
  - destruct (le (key x) (key y)) eqn:Hxy.
    + by repeat constructor.
    + constructor; [done|].
      assert (Hyx : R y x) by (destruct (le_total (key x) (key y)); congruence).
      destruct Hy as [|z l Hyz]; simpl.
      * by constructor.
      * destruct (le (key x) (key z)); by constructor.
Qed.

Lemma sorted_Sorted (l : list A) : Sorted R (sorted key le l).
Proof.
  induction l as [|x l IH]; simpl; [constructor|].
  by apply insort_Sorted.
Qed.

Hypothesis le_trans :
  forall a b c, le a b = true -> le b c = true -> le a c = true.
Hypothesis le_antisym : forall a b, le a b = true -> le b a = true -> a = b.

Lemma key_le_trans : Transitive R.
Proof. intros x y z. unfold key_le. apply le_trans. Qed.

Lemma NoDup_key_inj (l : list A) (x y : A) :
  NoDup (key <$> l) -> x ∈ l -> y ∈ l -> key x = key y -> x = y.
Proof.
  induction l as [|z l IH]; intros Hnd Hx Hy Hk; [by inv Hx|].
  rewrite fmap_cons, NoDup_cons in Hnd. destruct Hnd as [Hz Hnd].
  apply elem_of_cons in Hx as [->|Hx]; apply elem_of_cons in Hy as [->|Hy];
    [done| | |by apply IH].
  - exfalso. apply Hz. rewrite Hk. by apply list_elem_of_fmap_2.
  - exfalso. apply Hz. rewrite <- Hk. by apply list_elem_of_fmap_2.
Qed.

(** With pairwise distinct keys the result of [sorted] does not depend on
    the order of the input. *)
Lemma sorted_Permutation_eq (l1 l2 : list A) :
  NoDup (key <$> l1) -> l1 ≡ₚ l2 -> sorted key le l1 = sorted key le l2.
Proof.
  intros Hnd Hp. pose proof key_le_trans.
  apply (Sorted_unique_strong R); try apply sorted_Sorted.
  - intros x1 x2 H1 H2 H12 H21.
    rewrite sorted_Permutation in H1. rewrite sorted_Permutation, <- Hp in H2.
    apply (NoDup_key_inj l1); auto.
  - by rewrite !sorted_Permutation.
Qed.

(** With pairwise distinct keys the keys of the result ascend strictly:
    each is below and different from all that follow. *)
Lemma sorted_strict (l : list A) :
  NoDup (key <$> l) ->
  StronglySorted (fun x y => R x y /\ key x <> key y) (sorted key le l).
Proof.
  intros Hnd. pose proof key_le_trans.
  assert (Hnd' : NoDup (key <$> sorted key le l))
    by (by rewrite sorted_Permutation).
  pose proof (Sorted_StronglySorted R _ (sorted_Sorted l)) as Hs.
  induction Hs as [|x l' Hl' IH Hx]; [constructor|].
  rewrite fmap_cons, NoDup_cons in Hnd'. destruct Hnd' as [Hx' Hnd'].
  constructor; [by apply IH|].
  rewrite Forall_forall in Hx |- *. intros y Hy. split; [by apply Hx|].
  intros Hk. apply Hx'. rewrite Hk. by apply list_elem_of_fmap_2.
Qed.
End SortedFacts.

Lemma Zleb_total (a b : Z) : (a <=? b) = true \/ (b <=? a) = true.
Proof. rewrite !Z.leb_le. lia. Qed.

Lemma Zleb_trans (a b c : Z) :
  (a <=? b) = true -> (b <=? c) = true -> (a <=? c) = true.
Proof. rewrite !Z.leb_le. lia. Qed.

Lemma Zleb_antisym (a b : Z) : (a <=? b) = true -> (b <=? a) = true -> a = b.
Proof. rewrite !Z.leb_le. lia. Qed.

Lemma tuple_leb_spec (a b : Z * Z) :
  tuple_leb a b = true <-> a.1 < b.1 \/ (a.1 = b.1 /\ a.2 <= b.2).
Proof.
  unfold tuple_leb.
  rewrite orb_true_iff, andb_true_iff, Z.ltb_lt, Z.eqb_eq, Z.leb_le. tauto.
Qed.

Lemma tuple_leb_total (a b : Z * Z) :
  tuple_leb a b = true \/ tuple_leb b a = true.
Proof. rewrite !tuple_leb_spec. lia. Qed.

Lemma tuple_leb_trans (a b c : Z * Z) :
  tuple_leb a b = true -> tuple_leb b c = true -> tuple_leb a c = true.
Proof. rewrite !tuple_leb_spec. lia. Qed.

Lemma tuple_leb_antisym (a b : Z * Z) :
  tuple_leb a b = true -> tuple_leb b a = true -> a = b.
Proof.
  rewrite !tuple_leb_spec. destruct a, b. simpl. intros. f_equal; lia.
Qed.

(** ** Reading back what the serializer wrote *)

Lemma frames_fit_entry (images : list IconFrame) (k : nat) (frame : IconFrame) :
  let ordered := sorted width Z.leb images in
  frames_fit images = true ->
  ordered !! k = Some frame ->
  entry_fits
    (entry_of frame (6 + 16 * len images + payload_total (take k ordered)))
  = true.
Proof.
  intros ordered Hfit Hk. unfold frames_fit in Hfit.
  apply andb_true_iff in Hfit as [_ Hfit].
  rewrite forallb_forall in Hfit. apply Hfit.
  apply list_elem_of_In, list_elem_of_lookup. exists k.
  fold ordered. rewrite (directory_lookup _ _ _ _ Hk).
  unfold len, ordered. by rewrite sorted_length.
Qed.

Lemma payload_total_cons (frame : IconFrame) (frames : list IconFrame) :
  payload_total (frame :: frames) = len (data frame) + payload_total frames.
Proof. unfold payload_total. rewrite fmap_cons. cbn [concat]. apply len_app. Qed.

Lemma payload_total_Permutation (l1 l2 : list IconFrame) :
  l1 ≡ₚ l2 -> payload_total l1 = payload_total l2.
Proof.
  induction 1 as [|x l1 l2 _ IH|x y l|l1 l2 l3 _ IH1 _ IH2];
    rewrite ?payload_total_cons; [done|by rewrite IH|lia|congruence].
Qed.

Lemma encoded_directory_length (entries : list DirEntry) :
  length (concat (encode_entry <$> entries)) = (16 * length entries)%nat.
Proof.
  induction entries as [|e entries IH]; [done|].
  rewrite fmap_cons. cbn [concat]. rewrite length_app, IH, encode_entry_length.
  cbn [length]. lia.
Qed.

(** The container [out] written for [images] holds, as entry [k] of its
    directory, the entry of the [k]-th frame in [sorted] order, its offset
    the end of the directory plus the payloads before it; and the bytes at
    that offset are the frame's payload. *)
Lemma ico_bytes_read (images : list IconFrame) (out : list byte) (k : nat)
    (frame : IconFrame) :
  let ordered := sorted width Z.leb images in
  let e := entry_of frame
             (6 + 16 * len images + payload_total (take k ordered)) in
  ico_bytes images = Ok out ->
  ordered !! k = Some frame ->
  read_entry out k = e /\ read_payload out e = data frame.
Proof.
  intros ordered e Hout Hk. rewrite ico_bytes_eq in Hout. cbn zeta in Hout.
  destruct (frames_fit images) eqn:Hfit; [|discriminate].
  apply Ok_inj in Hout as <-. fold ordered.
  pose proof (frames_fit_entry images k frame Hfit Hk) as He. fold ordered e in He.
  assert (Hlen : len ordered = len images)
    by (unfold len, ordered; by rewrite sorted_length).
  set (entries := directory ordered (6 + 16 * len ordered)).
  assert (Hek : entries !! k = Some e).
  { unfold entries. rewrite (directory_lookup _ _ _ _ Hk). by rewrite Hlen. }
  split.
  - unfold read_entry.
    change (6 + 16 * k)%nat with (length (ico_header (len ordered)) + 16 * k)%nat.
    rewrite (slice_blocks 16 (encode_entry <$> entries) k (encode_entry e)).
    + by apply unpack_encode_entry.
    + apply Forall_fmap, Forall_true. intros x. apply encode_entry_length.
    + by rewrite list_lookup_fmap, Hek.
  - unfold read_payload. rewrite app_assoc.
    set (pre := ico_header (len ordered) ++ concat (encode_entry <$> entries)).
    assert (Hpre : length pre = (6 + 16 * length images)%nat).
    { unfold pre. rewrite length_app, encoded_directory_length.
      unfold entries. rewrite directory_length. unfold ordered.
      rewrite sorted_length. reflexivity. }
    replace (Z.to_nat (e_offset e))
      with (length pre + length (concat (take k (data <$> ordered))))%nat.
    + replace (Z.to_nat (e_size e)) with (length (data frame)).
      * apply slice_concat. by rewrite list_lookup_fmap, Hk.
      * unfold e. cbn [e_size entry_of]. unfold len. lia.
    + rewrite Hpre. unfold e. cbn [e_offset entry_of].
      unfold payload_total, len. rewrite fmap_take. lia.
Qed.

Lemma ico_bytes_length (images : list IconFrame) (out : list byte) :
  ico_bytes images = Ok out ->
  len out = 6 + 16 * len images + payload_total images
  /\ read_count out = len images.
Proof.
  intros Hout. rewrite ico_bytes_eq in Hout. cbn zeta in Hout.
  destruct (frames_fit images) eqn:Hfit; [|discriminate].
  apply Ok_inj in Hout as <-.
  assert (Hlen : len (sorted width Z.leb images) = len images)
    by (unfold len; by rewrite sorted_length).
  split.
  - rewrite <- (payload_total_Permutation _ _
                  (sorted_Permutation width Z.leb images)).
    unfold payload_total, len.
    rewrite !length_app, encoded_directory_length, directory_length,
      sorted_length.
    change (length (ico_header _)) with 6%nat. lia.
  - unfold read_count. rewrite Hlen.
    change (slice 4 2 (ico_header (len images) ++ _))
      with (le_bytes 2 (len images)).
    apply le_value_le_bytes. apply in_range_spec.
    unfold frames_fit in Hfit. apply andb_true_iff in Hfit as [Hn _].
    by rewrite Hlen in Hn.
Qed.

(** ** The serializer raises nothing within the capacity of the format *)

Lemma payload_total_nonneg (frames : list IconFrame) : 0 <= payload_total frames.
Proof. unfold payload_total, len. lia. Qed.

Lemma payload_total_app (l1 l2 : list IconFrame) :
  payload_total (l1 ++ l2) = payload_total l1 + payload_total l2.
Proof.
  unfold payload_total. by rewrite fmap_app, concat_app, len_app.
Qed.

Lemma payload_total_take (frames : list IconFrame) (k : nat) (frame : IconFrame) :
  frames !! k = Some frame ->
  payload_total (take k frames) + len (data frame) <= payload_total frames.
Proof.
  intros Hk. rewrite <- (take_drop_middle frames k frame Hk) at 2.
  rewrite payload_total_app, payload_total_cons.
  pose proof (payload_total_nonneg (drop (S k) frames)). lia.
Qed.

Lemma width_byte_range (frame : IconFrame) :
  0 <= width frame -> 0 <= width_byte frame < 256.
Proof. unfold width_byte. destruct (Z.ltb_spec (width frame) 256); lia. Qed.

Lemma height_byte_range (frame : IconFrame) :
  0 <= height frame -> 0 <= height_byte frame < 256.
Proof. unfold height_byte. destruct (Z.ltb_spec (height frame) 256); lia. Qed.

Lemma within_capacity_fit (images : list IconFrame) :
  within_capacity images -> frames_fit images = true.
Proof.
  intros (Hn & Htot & Hfr). unfold frames_fit. cbn zeta.
  set (ordered := sorted width Z.leb images).
  assert (Hlen : len ordered = len images)
    by (unfold len, ordered; by rewrite sorted_length).
  assert (Hpt : payload_total ordered = payload_total images)
    by apply payload_total_Permutation, sorted_Permutation.
  apply andb_true_iff. split.
  { apply in_range_spec. rewrite Hlen. unfold len in *. simpl. lia. }
  apply forallb_forall. intros e He.
  apply list_elem_of_In, list_elem_of_lookup in He as [k Hk].
  assert (Hlt : (k < length ordered)%nat).
  { rewrite <- (directory_length ordered (6 + 16 * len ordered)).
    by apply lookup_lt_Some in Hk. }
  destruct (lookup_lt_is_Some_2 _ _ Hlt) as [frame Hf].
  rewrite (directory_lookup _ _ _ _ Hf) in Hk. injection Hk as <-.
  assert (Hin : frame ∈ images).
  { rewrite <- (sorted_Permutation width Z.leb images).
    apply list_elem_of_lookup. by exists k. }
  rewrite Forall_forall in Hfr. destruct (Hfr _ Hin) as (Hw & Hh & Hb).
  pose proof (payload_total_take _ _ _ Hf) as Htk.
  pose proof (payload_total_nonneg (take k ordered)).
  pose proof (width_byte_range frame Hw). pose proof (height_byte_range frame Hh).
  assert (0 <= len (data frame)) by (unfold len; lia).
  assert (0 <= len images) by (unfold len; lia).
  unfold entry_fits. rewrite !andb_true_iff, !in_range_spec.
  cbn [entry_of e_width e_height e_color_count e_reserved e_planes
       e_bit_count e_size e_offset].
  change (256 ^ Z.of_nat 1) with 256. change (256 ^ Z.of_nat 2) with 65536.
  change (256 ^ Z.of_nat 4) with 4294967296.
  change (2 ^ 32) with 4294967296 in Htot.
  repeat split; lia.
Qed.

Lemma ico_bytes_total (images : list IconFrame) :
  within_capacity images -> exists out, ico_bytes images = Ok out.
Proof.
  intros Hc. rewrite ico_bytes_eq. cbn zeta.
  rewrite (within_capacity_fit _ Hc). eauto.
Qed.

(** Frames of strictly ascending widths are in the order of [sorted]. *)
Lemma ascending_Sorted (frames : list IconFrame) :
  StronglySorted Z.lt (width <$> frames) ->
  Sorted (key_le width Z.leb) frames.
Proof.
  induction frames as [|f frames IH]; [constructor|].
  rewrite fmap_cons. intros Hs. apply StronglySorted_inv in Hs as [Hs Hf].
  constructor; [by apply IH|].
  destruct frames as [|g frames]; constructor.
  rewrite fmap_cons in Hf. apply Forall_cons in Hf as [Hfg _].
  unfold key_le. apply Z.leb_le. lia.
Qed.

(** ** Claims on the serializer *)

(** C1. For every non-empty list of frames, the serializer writes, as the
    32-bit payload-offset field of directory entry [k], the number
    [6 + 16 * N] plus the lengths of the payloads of the entries [0 .. k-1],
    where [N] is the frame count and the entries are in directory order
    (the frames in [sorted] order); and the payload of entry [k] stands at
    that offset, so the payloads are packed with no gap in directory
    order. The serializer does write the container whenever the frames are
    within the capacity of the format, and for frames of strictly ascending
    widths the directory order is the order they are given in. *)
Theorem write_ico_offsets_contiguous (images : list IconFrame) :
  0 < len images ->
  let ordered := sorted width Z.leb images in
  (within_capacity images -> exists out, ico_bytes images = Ok out)
  /\ (StronglySorted Z.lt (width <$> images) -> ordered = images)
  /\ forall (out : list byte) (k : nat) (frame : IconFrame),
       ico_bytes images = Ok out ->
       ordered !! k = Some frame ->
       e_offset (read_entry out k)
       = 6 + 16 * len images + payload_total (take k ordered)
       /\ e_size (read_entry out k) = len (data frame)
       /\ read_payload out (read_entry out k) = data frame.
Proof.
  intros _ ordered. split; [apply ico_bytes_total|].
  split; [intros Hasc; by apply sorted_fixed, ascending_Sorted|].
  intros out k frame Hout Hk.
  destruct (ico_bytes_read images out k frame Hout Hk) as [-> Hp].
  by rewrite Hp.
Qed.

Lemma write_ico_offsets_contiguous_witness :
  0 < len [frame32; frame16]
  /\ (exists out, ico_bytes [frame32; frame16] = Ok out)
  /\ forall out,
       ico_bytes [frame32; frame16] = Ok out ->
       e_offset (read_entry out 0) = 38 /\ e_offset (read_entry out 1) = 88
       /\ read_payload out (read_entry out 1) = data frame32.
Proof.
  assert (Hn : 0 < len [frame32; frame16]) by reflexivity.
  destruct (write_ico_offsets_contiguous [frame32; frame16] Hn)
    as (Htot & _ & Hk).
  split; [exact Hn|]. split.
  - apply Htot. unfold within_capacity. split; [reflexivity|].
    split; [reflexivity|]. repeat constructor; vm_compute; congruence.
  - intros out Hout.
    destruct (Hk out 0%nat frame16 Hout eq_refl) as (H0 & _ & _).
    destruct (Hk out 1%nat frame32 Hout eq_refl) as (H1 & _ & H1p).
    rewrite H0, H1, H1p. repeat split; reflexivity.
Defined.

(** C2. For the frames (16, 16, 24 bits, a payload [A] of 50 bytes) and
    (32, 32, 32 bits, a payload [B] of 120 bytes) the serializer produces
    the header bytes 00 00 01 00 02 00; entry 0 with width 16, height 16,
    planes 1, bit count 24, size 50, offset 38; entry 1 with width 32,
    height 32, planes 1, bit count 32, size 120, offset 88; and a container
    of 208 bytes in all. *)
Theorem write_ico_example (A B : list byte) :
  length A = 50%nat ->
  length B = 120%nat ->
  exists out,
    ico_bytes [mkIconFrame 16 16 24 A; mkIconFrame 32 32 32 B] = Ok out
    /\ out = bytes [0; 0; 1; 0; 2; 0;
                    16; 16; 0; 0; 1; 0; 24; 0; 50; 0; 0; 0; 38; 0; 0; 0;
                    32; 32; 0; 0; 1; 0; 32; 0; 120; 0; 0; 0; 88; 0; 0; 0]
             ++ A ++ B
    /\ take 6 out = bytes [0; 0; 1; 0; 2; 0]
    /\ read_entry out 0 = mkDirEntry 16 16 0 0 1 24 50 38
    /\ read_entry out 1 = mkDirEntry 32 32 0 0 1 32 120 88
    /\ len out = 208.
Proof.
  intros HA HB.
  assert (HlA : len A = 50) by (unfold len; rewrite HA; reflexivity).
  assert (HlB : len B = 120) by (unfold len; rewrite HB; reflexivity).
  eexists. split; [|split; [reflexivity|]].
  - rewrite ico_bytes_eq. unfold frames_fit. cbn zeta.
    change (sorted width Z.leb [?f; ?g]) with [f; g].
    change (len [_; _]) with 2.
    cbn [directory data]. rewrite HlA. unfold entry_of. cbn [data].
    rewrite HlA, HlB. cbn [fmap list_fmap concat data].
    rewrite (app_nil_r B). reflexivity.
  - split; [reflexivity|]. split; [reflexivity|]. split; [reflexivity|].
    rewrite !len_app, HlA, HlB. reflexivity.
Qed.

Lemma write_ico_example_witness :
  exists out,
    ico_bytes [frame16; frame32] = Ok out
    /\ read_entry out 0 = mkDirEntry 16 16 0 0 1 24 50 38
    /\ read_entry out 1 = mkDirEntry 32 32 0 0 1 32 120 88
    /\ len out = 208.
Proof.
  destruct (write_ico_example (replicate 50 "001"%byte)
              (replicate 120 "002"%byte) eq_refl eq_refl)
    as (out & Hout & _ & _ & H0 & H1 & Hlen).
  exists out. repeat split; assumption.
Defined.

(** C4, as the code has it. In the container written for any frames, the
    one-byte width field of a frame's directory entry is the frame's width
    when that is below 256 and 0 otherwise, and likewise the height byte.
    A reader that takes the byte 0 for 256 recovers a dimension that is at
    least 256 only when it is exactly 256: every larger dimension is
    written as 0 too and read back as 256. *)
Theorem dimension_bytes (images : list IconFrame) (out : list byte) (k : nat)
    (frame : IconFrame) :
  ico_bytes images = Ok out ->
  sorted width Z.leb images !! k = Some frame ->
  let e := read_entry out k in
  e_width e = (if width frame <? 256 then width frame else 0)
  /\ e_height e = (if height frame <? 256 then height frame else 0)
  /\ (256 <= width frame ->
      (read_dimension (e_width e) = width frame <-> width frame = 256))
  /\ (256 <= height frame ->
      (read_dimension (e_height e) = height frame <-> height frame = 256)).
Proof.
  intros Hout Hk e.
  destruct (ico_bytes_read images out k frame Hout Hk) as [He _].
  unfold e. rewrite He. cbn [e_width e_height entry_of].
  unfold width_byte, height_byte, read_dimension.
  repeat split; try reflexivity; intros;
    repeat match goal with
           | H : context [?a <? ?b] |- _ => destruct (Z.ltb_spec a b)
           | |- context [?a <? ?b] => destruct (Z.ltb_spec a b)
           end; simpl in *; lia.
Qed.

Lemma dimension_bytes_witness :
  exists out,
    ico_bytes [frame512; frame16] = Ok out
    /\ e_width (read_entry out 0) = 16
    /\ e_width (read_entry out 1) = 0
    /\ e_height (read_entry out 1) = 0.
Proof.
  exists (match ico_bytes [frame512; frame16] with Ok out => out | _ => [] end).
  split; [reflexivity|].
  destruct (dimension_bytes [frame512; frame16] _ 0%nat frame16
              eq_refl eq_refl) as (H0 & _).
  destruct (dimension_bytes [frame512; frame16] _ 1%nat frame512
              eq_refl eq_refl) as (H1 & H2 & _).
  split; [exact H0|]. split; [exact H1|exact H2].
Defined.

(** The round trip of C4 fails at 512 pixels: the width byte written for a
    512 by 512 frame is 0, and a reader that takes 0 for 256 does not get
    512 back. *)
Lemma dimension_round_trip_fails :
  exists out,
    ico_bytes [frame512] = Ok out
    /\ 256 <= width frame512
    /\ e_width (read_entry out 0) = 0
    /\ read_dimension (e_width (read_entry out 0)) = 256
    /\ read_dimension (e_width (read_entry out 0)) <> width frame512.
Proof.
  eexists. split; [reflexivity|]. vm_compute. repeat split; congruence.
Qed.

(** C9. For frames with pairwise distinct widths, the container the
    serializer produces is the same for every permutation of the list it
    is given. *)
Theorem write_ico_permutation (images images' : list IconFrame) :
  NoDup (width <$> images) ->
  images ≡ₚ images' ->
  ico_image images = ico_image images' /\ ico_bytes images = ico_bytes images'.
Proof.
  intros Hnd Hp.
  assert (Hs : sorted width Z.leb images = sorted width Z.leb images').
  { by apply (sorted_Permutation_eq width Z.leb
                Zleb_total Zleb_trans Zleb_antisym). }
  assert (Hi : ico_image images = ico_image images').
  { unfold ico_image. by rewrite Hs. }
  split; [exact Hi|]. unfold ico_bytes. by rewrite Hi.
Qed.

Lemma write_ico_permutation_witness :
  ico_image [frame16; frame32; frame512] = ico_image [frame512; frame16; frame32]
  /\ ico_bytes [frame16; frame32; frame512]
     = ico_bytes [frame512; frame16; frame32].
Proof.
  apply write_ico_permutation.
  - apply (bool_decide_unpack _). vm_compute. exact I.
  - change [frame512; frame16; frame32] with ([frame512] ++ [frame16; frame32]).
    change [frame16; frame32; frame512] with ([frame16; frame32] ++ [frame512]).
    apply Permutation_app_comm.
Defined.

(** C10, as the code has it. For every frame with positive width and
    height, the one-byte width and height fields computed for its directory
    entry lie in 0 .. 255, so the four one-byte fields never overflow; and
    packing the 16-byte entry succeeds exactly when, in addition, the bit
    count fits 16 bits and the payload length and the offset fit 32 bits. *)
Theorem entry_packing (frame : IconFrame) (offset : Z) :
  0 < width frame ->
  0 < height frame ->
  0 <= width_byte frame <= 255
  /\ 0 <= height_byte frame <= 255
  /\ ((exists entry,
         struct_pack_BBBBHHII (width_byte frame) (height_byte frame) 0 0 1
           (bit_count frame) (len (data frame)) offset = Ok entry
         /\ length entry = 16%nat)
      <-> 0 <= bit_count frame < 2 ^ 16
          /\ len (data frame) < 2 ^ 32
          /\ 0 <= offset < 2 ^ 32).
Proof.
  intros Hw Hh.
  assert (Hwb : 0 <= width_byte frame < 256) by (apply width_byte_range; lia).
  assert (Hhb : 0 <= height_byte frame < 256) by (apply height_byte_range; lia).
  split; [lia|]. split; [lia|].
  rewrite struct_pack_entry.
  assert (Hfit : entry_fits (entry_of frame offset) = true
                 <-> 0 <= bit_count frame < 2 ^ 16
                     /\ len (data frame) < 2 ^ 32 /\ 0 <= offset < 2 ^ 32).
  { unfold entry_fits. rewrite !andb_true_iff, !in_range_spec.
    cbn [entry_of e_width e_height e_color_count e_reserved e_planes
         e_bit_count e_size e_offset].
    change (256 ^ Z.of_nat 1) with 256. change (256 ^ Z.of_nat 2) with 65536.
    change (256 ^ Z.of_nat 4) with 4294967296.
    change (2 ^ 16) with 65536. change (2 ^ 32) with 4294967296.
    assert (0 <= len (data frame)) by (unfold len; lia). lia. }
  rewrite <- Hfit. destruct (entry_fits (entry_of frame offset)).
  - split; [done|]. intros _. eexists. split; [reflexivity|].
    apply encode_entry_length.
  - split; [|done]. by intros (entry & Hentry & _).
Qed.

Lemma entry_packing_witness :
  0 <= width_byte frame512 <= 255
  /\ exists entry,
       struct_pack_BBBBHHII (width_byte frame512) (height_byte frame512) 0 0 1
         (bit_count frame512) (len (data frame512)) 22 = Ok entry
       /\ length entry = 16%nat.
Proof.
  destruct (entry_packing frame512 22) as (Hw & _ & Hp);
    [reflexivity|reflexivity|].
  split; [exact Hw|]. apply Hp. vm_compute. repeat split; congruence.
Defined.

(** The packing of C10 is not total: a frame of positive width and height
    whose bit count does not fit 16 bits makes [struct.pack] raise, and the
    serializer with it. *)
Lemma entry_packing_raises :
  let frame := mkIconFrame 16 16 65536 [] in
  0 < width frame
  /\ 0 < height frame
  /\ struct_pack_BBBBHHII (width_byte frame) (height_byte frame) 0 0 1
       (bit_count frame) (len (data frame)) 22 = Raise struct_error
  /\ ico_bytes [frame] = Raise struct_error.
Proof. repeat split; reflexivity. Qed.

(** ** Running the commands *)

Lemma World_eta (w : World) :
  mkWorld (folders w) (dirs w) (files w) (stdout w) = w.
Proof. by destruct w. Qed.

Lemma write_chunks_run (p : Path) (data_chunks : list (list byte)) (w : World)
    (content : list byte) :
  files w !! p = Some content ->
  write_chunks p data_chunks w
  = (Ok tt,
     mkWorld (folders w) (dirs w)
       (<[p := content ++ concat data_chunks]> (files w)) (stdout w)).
Proof.
  revert w content.
  induction data_chunks as [|chunk rest IH]; intros w content Hp.
  - cbn [write_chunks concat]. rewrite app_nil_r, (insert_id _ _ _ Hp).
    by rewrite World_eta.
  - cbn [write_chunks concat]. unfold mbind, M_bind, file_write.
    rewrite (IH _ (content ++ chunk)).
    + cbn [folders dirs files stdout].
      by rewrite insert_alter_eq, <- app_assoc.
    + cbn [files]. by rewrite lookup_alter_eq, Hp.
Qed.

(** [write_ico] makes the directories, then either raises what
    [struct.pack] raised, with no file touched, or leaves the destination
    holding the header followed by the chunks. *)
Lemma write_ico_run (images : list IconFrame) (destination : Path) (w : World) :
  let w1 := (mkdir_parents (parent destination) w).2 in
  write_ico images destination w
  = match ico_bytes images with
    | Ok out =>
        (Ok tt,
         mkWorld (folders w1) (dirs w1) (<[destination := out]> (files w1))
           (stdout w1))
    | Raise e => (Raise e, w1)
    end.
Proof.
  unfold write_ico, ico_bytes. cbn zeta.
  unfold mbind at 1 2. unfold M_bind at 1 2.
  cbn [mkdir_parents fst snd]. unfold lift.
  destruct (ico_image images) as [[header data_chunks]|e]; [|reflexivity].
  cbn [mbind result_bind rbind].
  unfold mbind, M_bind, open_wb, file_write.
  rewrite (write_chunks_run _ _ _ header).
  - cbn [folders dirs files stdout].
    by rewrite insert_alter_eq, insert_insert_eq.
  - cbn [files]. by rewrite lookup_alter_eq, lookup_insert_eq.
Qed.

Section FrameCollectionFacts.
Context (normcase : string -> string).

Lemma load_loop_run (paths : list (string * PngFile))
    (size_map : gmap (Z * Z) IconFrame) (w : World) :
  load_loop paths size_map w
  = (Ok (collect paths size_map),
     mkWorld (folders w) (dirs w) (files w) (stdout w ++ skipped paths)).
Proof.
  revert size_map w.
  induction paths as [|[name file] rest IH]; intros size_map w.
  - cbn [load_loop collect skipped]. by rewrite app_nil_r, World_eta.
  - cbn [load_loop collect skipped]. unfold is_square.
    cbn [convert_RGBA Image_open im_width im_height].
    destruct (png_width file =? png_height file); cbn [negb].
    + apply IH.
    + unfold mbind, M_bind, print. rewrite IH.
      cbn [folders dirs files stdout]. by rewrite <- app_assoc.
Qed.

Lemma load_square_pngs_run (folder : Path) (w : World) :
  load_square_pngs normcase folder w
  = match folders w !! folder with
    | None => (Raise (FileNotFoundError folder), w)
    | Some entries =>
        let paths := listing normcase entries in
        let size_map := collect paths ∅ in
        let w' := mkWorld (folders w) (dirs w) (files w)
                    (stdout w ++ skipped paths) in
        if bool_decide (size size_map = 0%nat)
        then (Raise (ValueError folder), w')
        else (getitems size_map
                (sorted id tuple_leb (map_to_list size_map).*1), w')
    end.
Proof.
  unfold load_square_pngs. unfold mbind at 1. unfold M_bind at 1.
  unfold exists_. destruct (folders w !! folder) as [entries|] eqn:Hf.
  - rewrite bool_decide_eq_true_2 by eauto. cbn [negb].
    unfold mbind at 1. unfold M_bind at 1. unfold glob_png at 1.
    rewrite Hf. cbn [default]. unfold mbind at 1. unfold M_bind at 1.
    rewrite load_loop_run. fold (listing normcase entries). cbn zeta.
    destruct (bool_decide _); reflexivity.
  - rewrite bool_decide_eq_false_2 by (by intros [? ?]). reflexivity.
Qed.
End FrameCollectionFacts.

(** ** The dictionary of the loop *)

Lemma frame_of_fields (file : PngFile) :
  width (frame_of file) = png_width file
  /\ height (frame_of file) = png_height file
  /\ bit_count (frame_of file) = 32
  /\ data (frame_of file) = png_bytes file.
Proof. repeat split; reflexivity. Qed.

Lemma collect_app (l1 l2 : list (string * PngFile))
    (size_map : gmap (Z * Z) IconFrame) :
  collect (l1 ++ l2) size_map = collect l2 (collect l1 size_map).
Proof.
  revert size_map. induction l1 as [|[name file] l1 IH]; intros size_map; [done|].
  simpl. destruct (is_square file); apply IH.
Qed.

(** Files of other sizes leave the item of a key as it is. *)
Lemma collect_untouched (l : list (string * PngFile))
    (size_map : gmap (Z * Z) IconFrame) (key : Z * Z) :
  Forall (fun p => is_square p.2 = true ->
                   (png_width p.2, png_height p.2) <> key) l ->
  collect l size_map !! key = size_map !! key.
Proof.
  intros Hl. revert size_map.
  induction Hl as [|[name file] l Hp Hl IH]; intros size_map; [done|].
  simpl in *. destruct (is_square file); [|apply IH].
  rewrite IH. apply lookup_insert_ne. by apply Hp.
Qed.

Lemma collect_item_ok (l : list (string * PngFile))
    (size_map : gmap (Z * Z) IconFrame) :
  map_Forall item_ok size_map -> map_Forall item_ok (collect l size_map).
Proof.
  revert size_map. induction l as [|[name file] l IH]; intros size_map Hm; [done|].
  simpl. destruct (is_square file) eqn:Hsq; [|by apply IH].
  apply IH, map_Forall_insert_2; [|done].
  unfold is_square in Hsq. apply Z.eqb_eq in Hsq.
  unfold item_ok. by rewrite !(proj1 (frame_of_fields file)).
Qed.

Lemma collect_none_square (l : list (string * PngFile))
    (size_map : gmap (Z * Z) IconFrame) :
  Forall (fun p => is_square p.2 = false) l -> collect l size_map = size_map.
Proof.
  intros Hl. revert size_map.
  induction Hl as [|[name file] l Hp Hl IH]; intros size_map; [done|].
  simpl in *. rewrite Hp. apply IH.
Qed.

Lemma collect_keeps (l : list (string * PngFile))
    (size_map : gmap (Z * Z) IconFrame) (key : Z * Z) :
  is_Some (size_map !! key) -> is_Some (collect l size_map !! key).
Proof.
  revert size_map. induction l as [|[name file] l IH]; intros size_map Hk; [done|].
  simpl. destruct (is_square file); [|by apply IH].
  apply IH. rewrite lookup_insert_is_Some. destruct (decide
    ((png_width file, png_height file) = key)); auto.
Qed.

Lemma collect_some_square (l : list (string * PngFile))
    (size_map : gmap (Z * Z) IconFrame) :
  Exists (fun p => is_square p.2 = true) l -> collect l size_map <> ∅.
Proof.
  intros Hl. revert size_map.
  induction Hl as [[name file] l Hp|[name file] l Hl IH]; intros size_map.
  - simpl in *. rewrite Hp. intros Hempty.
    destruct (collect_keeps l
                (<[(png_width file, png_height file) := frame_of file]> size_map)
                (png_width file, png_height file)) as [f Hf].
    + rewrite lookup_insert_eq. eauto.
    + by rewrite Hempty, lookup_empty in Hf.
  - simpl. destruct (is_square file); apply IH.
Qed.

Lemma square_or_not (l : list (string * PngFile)) :
  Forall (fun p => is_square p.2 = false) l
  \/ Exists (fun p => is_square p.2 = true) l.
Proof.
  induction l as [|p l [IH|IH]]; [by left| |by right; right].
  destruct (is_square p.2) eqn:Hp; [right; by left|left; by constructor].
Qed.

Lemma square_not_both (l : list (string * PngFile)) :
  Forall (fun p => is_square p.2 = false) l ->
  Exists (fun p => is_square p.2 = true) l -> False.
Proof.
  intros Hf He. apply Exists_exists in He as (p & Hin & Hp).
  rewrite Forall_forall in Hf. specialize (Hf p Hin). congruence.
Qed.

(** ** The list comprehension over the sorted keys *)

Lemma getitems_ok (size_map : gmap (Z * Z) IconFrame) (keys : list (Z * Z)) :
  Forall (fun key => is_Some (size_map !! key)) keys ->
  exists frames,
    getitems size_map keys = Ok frames
    /\ Forall2 (fun key frame => size_map !! key = Some frame) keys frames.
Proof.
  induction 1 as [|key keys [frame Hk] _ (frames & Hg & Hf)].
  - exists []. by split.
  - exists (frame :: frames). split; [|by constructor].
    cbn [getitems]. unfold getitem. rewrite Hk.
    cbn [mbind result_bind rbind]. by rewrite Hg.
Qed.

Lemma items_widths (size_map : gmap (Z * Z) IconFrame) (keys : list (Z * Z))
    (frames : list IconFrame) :
  map_Forall item_ok size_map ->
  Forall2 (fun key frame => size_map !! key = Some frame) keys frames ->
  width <$> frames = keys.*1 /\ Forall (fun key => key.1 = key.2) keys.
Proof.
  intros Hok. induction 1 as [|key frame keys frames Hk _ [IH1 IH2]]; [done|].
  destruct (Hok _ _ Hk) as (-> & Hsq & _).
  rewrite !fmap_cons, IH1. split; [done|]. by constructor.
Qed.

Lemma strict_keys_widths (keys : list (Z * Z)) :
  Forall (fun key => key.1 = key.2) keys ->
  StronglySorted (fun x y => key_le id tuple_leb x y /\ id x <> id y) keys ->
  StronglySorted Z.lt keys.*1.
Proof.
  intros Hsq Hs. induction Hs as [|x keys Hs IH Hx]; [constructor|].
  apply Forall_cons in Hsq as [Hx1 Hsq]. rewrite fmap_cons.
  constructor; [by apply IH|].
  apply Forall_fmap. rewrite Forall_forall in Hx, Hsq |- *. intros y Hy.
  destruct (Hx y Hy) as [Hle Hne]. specialize (Hsq y Hy).
  unfold key_le in Hle. apply tuple_leb_spec in Hle.
  destruct x as [x1 x2], y as [y1 y2]. simpl in *.
  destruct (decide (x1 = y1)); [|lia]. exfalso. apply Hne. f_equal; lia.
Qed.

Lemma StronglySorted_lt_NoDup (l : list Z) : StronglySorted Z.lt l -> NoDup l.
Proof.
  induction 1 as [|x l _ IH Hx]; constructor; [|done].
  intros Hin. rewrite Forall_forall in Hx. specialize (Hx x Hin). lia.
Qed.

(** ** What frame collection returns *)

Section FrameCollectionClaims.
Context (normcase : string -> string).

Lemma listing_Permutation (entries : list (string * PngFile)) :
  listing normcase entries ≡ₚ candidates normcase entries.
Proof. apply sorted_Permutation. Qed.

(** With a square file among the candidates, [load_square_pngs] returns
    the items of the dictionary of its loop, their widths ascending. *)
Lemma load_square_pngs_frames (folder : Path) (w : World)
    (entries : list (string * PngFile)) :
  folders w !! folder = Some entries ->
  Exists (fun p => is_square p.2 = true) (candidates normcase entries) ->
  let size_map := collect (listing normcase entries) ∅ in
  exists frames,
    (load_square_pngs normcase folder w).1 = Ok frames
    /\ (forall frame,
          frame ∈ frames <-> exists key, size_map !! key = Some frame)
    /\ StronglySorted Z.lt (width <$> frames)
    /\ map_Forall item_ok size_map
    /\ frames <> [].
Proof.
  intros Hf Hsq size_map. rewrite <- listing_Permutation in Hsq.
  assert (Hne : size_map <> ∅) by by apply collect_some_square.
  assert (Hok : map_Forall item_ok size_map)
    by apply collect_item_ok, map_Forall_empty.
  rewrite load_square_pngs_run, Hf. cbn zeta. fold size_map.
  rewrite bool_decide_eq_false_2 by by apply map_size_non_empty_iff.
  cbn [fst].
  set (keys := sorted id tuple_leb (map_to_list size_map).*1).
  assert (Hkeys : forall key, key ∈ keys <-> is_Some (size_map !! key)).
  { intros key. unfold keys. rewrite sorted_Permutation.
    rewrite list_elem_of_fmap. split.
    - intros ([k f] & -> & Hin). apply elem_of_map_to_list in Hin. eauto.
    - intros [f Hk]. exists (key, f). split; [done|].
      by apply elem_of_map_to_list. }
  destruct (getitems_ok size_map keys) as (frames & Hg & Hf2).
  { apply Forall_forall. intros key Hin. by apply Hkeys. }
  exists frames. split; [done|].
  destruct (items_widths _ _ _ Hok Hf2) as [Hw Hsquare].
  assert (Hmem : forall frame,
             frame ∈ frames <-> exists key, size_map !! key = Some frame).
  { intros frame. split.
    - intros Hin. apply list_elem_of_lookup in Hin as [i Hi].
      destruct (Forall2_lookup_r _ _ _ _ _ Hf2 Hi) as (key & _ & Hk). eauto.
    - intros [key Hk].
      assert (Hin : key ∈ keys) by (apply Hkeys; eauto).
      apply list_elem_of_lookup in Hin as [i Hi].
      destruct (Forall2_lookup_l _ _ _ _ _ Hf2 Hi) as (frame' & Hi' & Hk').
      assert (frame' = frame) as -> by congruence.
      apply list_elem_of_lookup. eauto. }
  split; [done|]. split; [|split; [done|]].
  - rewrite Hw. apply strict_keys_widths; [done|].
    apply sorted_strict; [apply tuple_leb_total|apply tuple_leb_trans|].
    rewrite list_fmap_id. apply NoDup_fst_map_to_list.
  - intros ->. apply Hne, map_empty. intros key.
    destruct (size_map !! key) as [frame|] eqn:Hk; [|done].
    assert (Hin : frame ∈ []) by (apply Hmem; eauto). by inv Hin.
Qed.

Lemma load_square_pngs_missing (folder : Path) (w : World) :
  folders w !! folder = None ->
  (load_square_pngs normcase folder w).1 = Raise (FileNotFoundError folder).
Proof. intros Hf. by rewrite load_square_pngs_run, Hf. Qed.

Lemma load_square_pngs_none_square (folder : Path) (w : World)
    (entries : list (string * PngFile)) :
  folders w !! folder = Some entries ->
  Forall (fun p => is_square p.2 = false) (candidates normcase entries) ->
  (load_square_pngs normcase folder w).1 = Raise (ValueError folder).
Proof.
  intros Hf Hnone. rewrite load_square_pngs_run, Hf. cbn zeta.
  rewrite collect_none_square by by rewrite listing_Permutation.
  reflexivity.
Qed.

(** C8. A conversion task whose source folder exists and has no square
    candidate fails with [ValueError] (EmptyFrameSet), and it leaves the
    output files and directories as they were: nothing is created or
    written at the destination. *)
Theorem convert_folder_empty (source destination : Path) (w : World)
    (entries : list (string * PngFile)) :
  folders w !! source = Some entries ->
  Forall (fun p => is_square p.2 = false) (candidates normcase entries) ->
  let r := convert_folder normcase source destination w in
  r.1 = Raise (ValueError source)
  /\ files r.2 = files w
  /\ dirs r.2 = dirs w
  /\ files r.2 !! destination = files w !! destination.
Proof.
  intros Hf Hnone. cbn zeta.
  assert (Hrun : convert_folder normcase source destination w
                 = (Raise (ValueError source),
                    mkWorld (folders w) (dirs w) (files w)
                      ((stdout w ++ [Converting source destination])
                         ++ skipped (listing normcase entries)))).
  { unfold convert_folder.
    unfold mbind at 1. unfold M_bind at 1. unfold print at 1.
    unfold mbind at 1. unfold M_bind at 1.
    rewrite load_square_pngs_run. cbn [folders]. rewrite Hf. cbn zeta.
    rewrite collect_none_square by by rewrite listing_Permutation.
    by rewrite bool_decide_eq_true_2 by apply map_size_empty. }
  rewrite Hrun. repeat split; reflexivity.
Qed.

(** Frame collection reads the folders only, and its result depends on
    nothing else. *)
Lemma load_square_pngs_reads (folder : Path) (w w' : World) :
  folders w = folders w' ->
  (load_square_pngs normcase folder w).1
  = (load_square_pngs normcase folder w').1.
Proof.
  intros Hw. rewrite !load_square_pngs_run, Hw.
  destruct (folders w' !! folder); [|done]. cbn zeta.
  by destruct (bool_decide _).
Qed.

Lemma load_square_pngs_world (folder : Path) (w : World) :
  let w' := (load_square_pngs normcase folder w).2 in
  folders w' = folders w /\ dirs w' = dirs w /\ files w' = files w.
Proof.
  rewrite load_square_pngs_run.
  destruct (folders w !! folder); [|done]. cbn zeta.
  by destruct (bool_decide _).
Qed.

Lemma convert_folder_run (source destination : Path) (w : World) :
  convert_folder normcase source destination w
  = match load_square_pngs normcase source
            (print (Converting source destination) w).2 with
    | (Ok images, w2) =>
        match write_ico images destination w2 with
        | (Ok _, w3) => print (Wrote destination) w3
        | (Raise e, w3) => (Raise e, w3)
        end
    | (Raise e, w2) => (Raise e, w2)
    end.
Proof. reflexivity. Qed.

(** A conversion whose frames the serializer can pack ends with the
    container in the destination file. *)
Lemma convert_folder_writes (source destination : Path) (w : World)
    (frames : list IconFrame) (out : list byte) :
  (load_square_pngs normcase source w).1 = Ok frames ->
  ico_bytes frames = Ok out ->
  let r := convert_folder normcase source destination w in
  r.1 = Ok tt /\ files r.2 !! destination = Some out.
Proof.
  intros Hr Hout. cbn zeta. rewrite convert_folder_run.
  set (w1 := (print (Converting source destination) w).2).
  assert (Hr1 : (load_square_pngs normcase source w1).1 = Ok frames)
    by by rewrite <- (load_square_pngs_reads source w w1).
  destruct (load_square_pngs normcase source w1) as [r1 w2]. cbn [fst] in Hr1.
  subst r1. rewrite write_ico_run, Hout. cbn zeta.
  split; [reflexivity|]. apply lookup_insert_eq.
Qed.

(** Every frame that frame collection returns has the bit count 32. *)
Lemma load_square_pngs_bit_count (folder : Path) (w : World)
    (frames : list IconFrame) :
  (load_square_pngs normcase folder w).1 = Ok frames ->
  Forall (fun frame => bit_count frame = 32) frames.
Proof.
  intros Hr. destruct (folders w !! folder) as [entries|] eqn:Hf;
    [|by rewrite load_square_pngs_missing in Hr].
  destruct (square_or_not (candidates normcase entries)) as [Hnone|Hsq];
    [by rewrite (load_square_pngs_none_square _ _ entries) in Hr|].
  destruct (load_square_pngs_frames folder w entries Hf Hsq)
    as (frames' & Hr' & Hmem & _ & Hok & _).
  assert (frames' = frames) as -> by congruence.
  apply Forall_forall. intros frame Hin.
  apply Hmem in Hin as [key Hk]. by destruct (Hok _ _ Hk) as (_ & _ & ?).
Qed.

(** The last file of a size, in the order of the loop, is the one whose
    frame is returned for that size. *)
Lemma last_file_wins (folder : Path) (w : World)
    (entries before after : list (string * PngFile)) (name : string)
    (file : PngFile) :
  folders w !! folder = Some entries ->
  listing normcase entries = before ++ (name, file) :: after ->
  is_square file = true ->
  Forall (fun p => is_square p.2 = true ->
                   png_width p.2 <> png_width file) after ->
  exists frames,
    (load_square_pngs normcase folder w).1 = Ok frames
    /\ sorted width Z.leb frames = frames
    /\ frame_of file ∈ frames
    /\ forall frame,
         frame ∈ frames -> width frame = png_width file ->
         frame = frame_of file.
Proof.
  intros Hf Hl Hsq Hafter.
  assert (Hsome : Exists (fun p => is_square p.2 = true)
                    (candidates normcase entries)).
  { rewrite <- listing_Permutation, Hl. apply Exists_app. right. by left. }
  destruct (load_square_pngs_frames folder w entries Hf Hsome)
    as (frames & Hr & Hmem & Hasc & Hok & _).
  assert (Hkey : collect (listing normcase entries) ∅
                   !! (png_width file, png_height file)
                 = Some (frame_of file)).
  { rewrite Hl, collect_app. cbn [collect]. rewrite Hsq.
    rewrite collect_untouched; [apply lookup_insert_eq|].
    eapply Forall_impl; [exact Hafter|]. cbn beta.
    intros p Hp Hpsq [= Hw _]. by apply Hp. }
  exists frames. repeat split; try done.
  - by apply sorted_fixed, ascending_Sorted.
  - apply Hmem. eauto.
  - intros frame Hin Hw. apply Hmem in Hin as [key Hk].
    destruct (Hok _ _ Hk) as (-> & Hfsq & _).
    unfold is_square in Hsq. apply Z.eqb_eq in Hsq.
    rewrite <- Hfsq, Hw, Hsq in Hk at 1. congruence.
Qed.

End FrameCollectionClaims.


(** ** Frame collection on POSIX paths, run *)

Lemma convert_folder_empty_witness :
  let r := convert_folder posix_normcase icons ico
             (world_with [("banner.png"%string, banner);
                          ("icon.jpg"%string, rgba32)]) in
  r.1 = Raise (ValueError icons)
  /\ files r.2 = ∅
  /\ files r.2 !! ico = None.
Proof.
  destruct (convert_folder_empty posix_normcase icons ico
              (world_with [("banner.png"%string, banner);
                           ("icon.jpg"%string, rgba32)])
              [("banner.png"%string, banner); ("icon.jpg"%string, rgba32)])
    as (Hr & Hfiles & _ & Hdest).
  - vm_compute. reflexivity.
  - vm_compute. repeat constructor.
  - cbn zeta. rewrite Hr, Hfiles. repeat split; reflexivity.
Defined.

(** C3 on the code: the loop tests for the alpha band on the image already
    converted to RGBA, so the test always succeeds. A square RGB file, with
    no alpha band, gets a frame of bit count 32, not 24. *)
Theorem bit_count_of_rgb_source :
  ("A"%string ∉ png_bands rgb16)
  /\ is_square rgb16 = true
  /\ (load_square_pngs posix_normcase icons
        (world_with [("icon_16x16.png"%string, rgb16)])).1
     = Ok [mkIconFrame 16 16 32 (png_bytes rgb16)].
Proof.
  split; [|split; [reflexivity|by vm_compute]].
  apply (bool_decide_unpack _). by vm_compute.
Qed.

(** * Further properties of the script *)

(** ** [struct.pack] and its reading *)

Lemma struct_pack_BBBBHHII_eq (b0 b1 b2 b3 h0 h1 i0 i1 : Z) :
  struct_pack_BBBBHHII b0 b1 b2 b3 h0 h1 i0 i1
  = if entry_fits (mkDirEntry b0 b1 b2 b3 h0 h1 i0 i1)
    then Ok (encode_entry (mkDirEntry b0 b1 b2 b3 h0 h1 i0 i1))
    else Raise struct_error.
Proof.
  unfold struct_pack_BBBBHHII, pack_B, pack_H, pack_I, entry_fits.
  rewrite !pack_field_eq. cbn [e_width e_height e_color_count
    e_reserved e_planes e_bit_count e_size e_offset].
  destruct (in_range 1 b0); [|reflexivity].
  destruct (in_range 1 b1); [|reflexivity].
  destruct (in_range 1 b2); [|reflexivity].
  destruct (in_range 1 b3); [|reflexivity].
  destruct (in_range 2 h0); [|reflexivity].
  destruct (in_range 2 h1); [|reflexivity].
  destruct (in_range 4 i0); [|reflexivity].
  destruct (in_range 4 i1); reflexivity.
Qed.

(** X1. [struct.pack("<BBBBHHII", ...)] either returns 16 bytes from which
    the eight values are read back as they were given, every value being
    within the range of its field, or raises [struct.error], some value
    being outside the range of its field; it does nothing else. *)
Theorem struct_pack_round_trip (b0 b1 b2 b3 h0 h1 i0 i1 : Z) :
  let fits :=
    (0 <= b0 < 256 /\ 0 <= b1 < 256 /\ 0 <= b2 < 256 /\ 0 <= b3 < 256)
    /\ (0 <= h0 < 65536 /\ 0 <= h1 < 65536)
    /\ (0 <= i0 < 4294967296 /\ 0 <= i1 < 4294967296) in
  match struct_pack_BBBBHHII b0 b1 b2 b3 h0 h1 i0 i1 with
  | Ok entry =>
      fits /\ length entry = 16%nat
      /\ unpack_BBBBHHII entry = mkDirEntry b0 b1 b2 b3 h0 h1 i0 i1
  | Raise e => e = struct_error /\ ~ fits
  end.
Proof.
  cbn zeta. rewrite struct_pack_BBBBHHII_eq.
  assert (Hfit : entry_fits (mkDirEntry b0 b1 b2 b3 h0 h1 i0 i1) = true
                 <-> (0 <= b0 < 256 /\ 0 <= b1 < 256 /\ 0 <= b2 < 256
                      /\ 0 <= b3 < 256)
                     /\ (0 <= h0 < 65536 /\ 0 <= h1 < 65536)
                     /\ (0 <= i0 < 4294967296 /\ 0 <= i1 < 4294967296)).
  { unfold entry_fits. rewrite !andb_true_iff, !in_range_spec.
    cbn [e_width e_height e_color_count e_reserved e_planes e_bit_count
         e_size e_offset].
    change (256 ^ Z.of_nat 1) with 256. change (256 ^ Z.of_nat 2) with 65536.
    change (256 ^ Z.of_nat 4) with 4294967296. tauto. }
  destruct (entry_fits _) eqn:He.
  - split; [by apply Hfit|]. split; [apply encode_entry_length|].
    by apply unpack_encode_entry.
  - split; [reflexivity|]. intros Hf. apply Hfit in Hf. discriminate.
Qed.

(** ** The container as a whole *)

(** X2. The container written for [N] frames has [6 + 16 * N] bytes plus
    the lengths of all payloads, and the count field of its header reads
    [N]. *)
Theorem container_length_and_count (images : list IconFrame) (out : list byte) :
  ico_bytes images = Ok out ->
  len out = 6 + 16 * len images + payload_total images
  /\ read_count out = len images
  /\ Z_of_byte <$> take 4 out = [0; 0; 1; 0].
Proof.
  intros Hout. destruct (ico_bytes_length images out Hout) as [Hl Hc].
  split; [done|]. split; [done|].
  rewrite ico_bytes_eq in Hout. cbn zeta in Hout.
  destruct (frames_fit images); [|discriminate].
  apply Ok_inj in Hout as <-. reflexivity.
Qed.

Lemma container_length_and_count_witness :
  exists out,
    ico_bytes [frame512; frame16; frame32] = Ok out
    /\ len out = 227 /\ read_count out = 3.
Proof.
  exists (match ico_bytes [frame512; frame16; frame32] with
          | Ok out => out | Raise _ => [] end).
  split; [reflexivity|].
  destruct (container_length_and_count [frame512; frame16; frame32] _ eq_refl)
    as (Hl & Hc & _).
  split; [exact Hl|exact Hc].
Defined.

(** X3. After the header and the directory, that is from byte [6 + 16 * N]
    on, the container is the payloads of the frames, one after the other in
    the order of their widths, and nothing else. *)
Theorem container_payload_section (images : list IconFrame) (out : list byte) :
  ico_bytes images = Ok out ->
  drop (6 + 16 * length images) out
  = concat (data <$> sorted width Z.leb images).
Proof.
  intros Hout. rewrite ico_bytes_eq in Hout. cbn zeta in Hout.
  destruct (frames_fit images); [|discriminate].
  apply Ok_inj in Hout as <-. rewrite app_assoc.
  apply drop_app_length'.
  rewrite length_app, encoded_directory_length, directory_length, sorted_length.
  reflexivity.
Qed.

Lemma container_payload_section_witness :
  exists out,
    ico_bytes [frame512; frame16] = Ok out
    /\ drop 38 out = data frame16 ++ data frame512.
Proof.
  exists (match ico_bytes [frame512; frame16] with
          | Ok out => out | Raise _ => [] end).
  split; [reflexivity|].
  exact (container_payload_section [frame512; frame16] _ eq_refl).
Defined.

(** X4. Reading a container back, the count and then every entry with its
    payload, the dimension byte 0 taken for 256, gives the frames that were
    serialized, in the order of their widths, when every dimension is
    between 1 and 256. *)
Theorem container_round_trip (images : list IconFrame) (out : list byte) :
  Forall (fun frame => 1 <= width frame <= 256 /\ 1 <= height frame <= 256)
    images ->
  ico_bytes images = Ok out ->
  read_frames out = sorted width Z.leb images.
Proof.
  intros Hdim Hout. destruct (ico_bytes_length images out Hout) as [_ Hc].
  unfold read_frames. rewrite Hc. unfold len. rewrite Nat2Z.id.
  rewrite <- (sorted_Permutation width Z.leb images) in Hdim.
  rewrite <- (sorted_length width Z.leb images).
  apply list_eq. intros i. rewrite list_lookup_fmap.
  destruct (decide (i < length (sorted width Z.leb images))%nat) as [Hi|Hi].
  - rewrite lookup_seq_lt by done.
    destruct (lookup_lt_is_Some_2 _ _ Hi) as [frame Hf]. rewrite Hf.
    destruct (ico_bytes_read images out i frame Hout Hf) as [He Hp].
    rewrite Forall_forall in Hdim.
    destruct (Hdim frame) as [Hw Hh]; [apply list_elem_of_lookup; eauto|].
    cbn [fmap option_fmap option_map Nat.add]. f_equal.
    unfold read_frame. rewrite He, Hp.
    cbn [e_width e_height e_bit_count entry_of].
    unfold read_dimension, width_byte, height_byte.
    destruct frame as [fw fh fb fd]. cbn [width height bit_count data] in *.
    f_equal.
    + destruct (Z.ltb_spec fw 256); destruct (Z.eqb_spec fw 0);
        try destruct (Z.eqb_spec 0 0); lia.
    + destruct (Z.ltb_spec fh 256); destruct (Z.eqb_spec fh 0);
        try destruct (Z.eqb_spec 0 0); lia.
  - rewrite lookup_seq_ge by lia. symmetry. apply lookup_ge_None_2. lia.
Qed.

Lemma container_round_trip_witness :
  exists out,
    ico_bytes [frame32; frame16] = Ok out
    /\ read_frames out = [frame16; frame32].
Proof.
  exists (match ico_bytes [frame32; frame16] with
          | Ok out => out | Raise _ => [] end).
  split; [reflexivity|].
  rewrite (container_round_trip [frame32; frame16]).
  - reflexivity.
  - repeat constructor; vm_compute; congruence.
  - reflexivity.
Defined.

(** ** The order of the directory *)

Section Stable.
Context {A K : Type} `{EqDecision K} (key : A -> K) (le : K -> K -> bool).
Hypothesis le_refl : forall a, le a a = true.

Lemma insort_filter_key (x : A) (l : list A) (k : K) :
  filter (fun y => key y = k) (insort key le x l)
  = filter (fun y => key y = k) (x :: l).
Proof.
  induction l as [|y l IH]; [done|]. cbn [insort].
  destruct (le (key x) (key y)) eqn:Hxy; [done|].
  assert (Hne : key x <> key y).
  { intros Heq. rewrite Heq, le_refl in Hxy. discriminate. }
  destruct (decide (key x = k)) as [Hx|Hx].
  - rewrite (filter_cons_False _ y) by congruence. rewrite IH.
    rewrite !(filter_cons_True _ x) by done.
    by rewrite (filter_cons_False _ y) by congruence.
  - rewrite (filter_cons_False _ x (y :: l)) by done.
    rewrite !(filter_cons _ y), IH.
    by rewrite (filter_cons_False _ x) by done.
Qed.

(** [sorted] is stable: the elements of one key keep their order. *)
Lemma sorted_stable (l : list A) (k : K) :
  filter (fun y => key y = k) (sorted key le l) = filter (fun y => key y = k) l.
Proof.
  induction l as [|x l IH]; [done|]. cbn [sorted foldr].
  fold (sorted key le l). rewrite insort_filter_key.
  rewrite !(filter_cons _ x). by rewrite IH.
Qed.
End Stable.

(** X5. The frames in the order of the directory are the given frames,
    each as often as it was given, their widths never descending; and the
    frames of one width, which Python's stable sort does not reorder, stay
    in the order they were given in. *)
Theorem write_ico_directory_order (images : list IconFrame) :
  let ordered := sorted width Z.leb images in
  ordered ≡ₚ images
  /\ Sorted Z.le (width <$> ordered)
  /\ forall w, filter (fun frame => width frame = w) ordered
               = filter (fun frame => width frame = w) images.
Proof.
  cbn zeta. split; [apply sorted_Permutation|]. split.
  - apply (Sorted_fmap width (key_le width Z.leb)).
    + intros x y Hxy. by apply Z.leb_le.
    + apply sorted_Sorted, Zleb_total.
  - intros w. apply sorted_stable, Z.leb_refl.
Qed.

(** ** What [write_ico] does to the world *)

Lemma mkdir_parents_dirs (p : Path) (w : World) (n : nat) :
  (1 <= n <= length p)%nat -> take n p ∈ dirs (mkdir_parents p w).2.
Proof.
  intros Hn. cbn [mkdir_parents snd dirs]. apply elem_of_union_r.
  apply elem_of_list_to_set, list_elem_of_In, in_map_iff.
  exists n. split; [done|]. apply in_seq. lia.
Qed.

(** X6. When the frames can be packed, [write_ico] returns with the
    destination file holding exactly the container, whatever it held
    before; it writes no other file, prints nothing, and the directory of
    the destination and all its ancestors exist afterwards, besides the
    directories there were. *)
Theorem write_ico_effect (images : list IconFrame) (destination : Path)
    (w : World) (out : list byte) :
  ico_bytes images = Ok out ->
  let r := write_ico images destination w in
  r.1 = Ok tt
  /\ files r.2 !! destination = Some out
  /\ (forall p, p <> destination -> files r.2 !! p = files w !! p)
  /\ stdout r.2 = stdout w
  /\ dirs w ⊆ dirs r.2
  /\ forall n, (1 <= n <= length (parent destination))%nat ->
               take n (parent destination) ∈ dirs r.2.
Proof.
  intros Hout. cbn zeta. rewrite write_ico_run, Hout. cbn zeta.
  cbn [fst snd files folders stdout dirs].
  split; [done|]. split; [apply lookup_insert_eq|].
  split; [intros p Hp; by apply lookup_insert_ne|].
  split; [done|]. split.
  - cbn [mkdir_parents snd dirs]. apply union_subseteq_l.
  - intros n Hn. by apply mkdir_parents_dirs.
Qed.

Lemma write_ico_effect_witness :
  let w := mkWorld ∅ ∅ {[ ico := bytes [9; 9; 9; 9] ]} [] in
  let r := write_ico [frame16] ico w in
  r.1 = Ok tt
  /\ (len <$> files r.2 !! ico) = Some 72
  /\ ["installer"; "assets"]%string ∈ dirs r.2.
Proof.
  cbn zeta.
  destruct (write_ico_effect [frame16] ico
              (mkWorld ∅ ∅ {[ ico := bytes [9; 9; 9; 9] ]} [])
              (match ico_bytes [frame16] with Ok out => out | Raise _ => [] end)
              eq_refl) as (Hr & Hf & _ & _ & _ & Hd).
  split; [exact Hr|]. split; [by rewrite Hf|].
  apply (Hd 2%nat). vm_compute. lia.
Defined.

(** X7. When a frame cannot be packed, [write_ico] raises the
    [struct.error] after it has made the directories and before it opens
    the destination: every file is as it was, the destination neither
    created nor truncated, while the directory of the destination
    exists. *)
Theorem write_ico_failure (images : list IconFrame) (destination : Path)
    (w : World) (e : exn) :
  ico_bytes images = Raise e ->
  let r := write_ico images destination w in
  r.1 = Raise struct_error
  /\ e = struct_error
  /\ files r.2 = files w
  /\ stdout r.2 = stdout w
  /\ forall n, (1 <= n <= length (parent destination))%nat ->
               take n (parent destination) ∈ dirs r.2.
Proof.
  intros Hout. cbn zeta. rewrite write_ico_run, Hout. cbn zeta.
  assert (He : e = struct_error).
  { rewrite ico_bytes_eq in Hout. cbn zeta in Hout.
    destruct (frames_fit images); congruence. }
  subst e. repeat split; try done.
  intros n Hn. by apply mkdir_parents_dirs.
Qed.

Lemma write_ico_failure_witness :
  let w := mkWorld ∅ ∅ {[ ico := bytes [9; 9; 9; 9] ]} [] in
  let r := write_ico [mkIconFrame 16 16 65536 []] ico w in
  r.1 = Raise struct_error
  /\ files r.2 !! ico = Some (bytes [9; 9; 9; 9])
  /\ ["installer"; "assets"]%string ∈ dirs r.2.
Proof.
  cbn zeta.
  destruct (write_ico_failure [mkIconFrame 16 16 65536 []] ico
              (mkWorld ∅ ∅ {[ ico := bytes [9; 9; 9; 9] ]} [])
              struct_error eq_refl) as (Hr & _ & Hf & _ & Hd).
  split; [exact Hr|]. split; [by rewrite Hf|].
  apply (Hd 2%nat). vm_compute. lia.
Defined.

(** X8. Writing the same frames to the same destination a second time
    changes nothing: the world after two runs of [write_ico] is the world
    after one, and the result is the same. *)
Theorem write_ico_twice (images : list IconFrame) (destination : Path)
    (w : World) :
  write_ico images destination (write_ico images destination w).2
  = write_ico images destination w.
Proof.
  assert (Hd : forall d s : gset Path, d ∪ s ∪ s = d ∪ s).
  { intros d s. by rewrite <- (assoc_L (∪)), (idemp_L (∪)). }
  rewrite !write_ico_run. cbn zeta.
  destruct (ico_bytes images) as [out|e];
    cbn [snd mkdir_parents folders dirs files stdout];
    rewrite Hd, ?insert_insert_eq; reflexivity.
Qed.

(** ** More on frame collection *)

Lemma collect_items (l : list (string * PngFile))
    (size_map : gmap (Z * Z) IconFrame) (key : Z * Z) (frame : IconFrame) :
  collect l size_map !! key = Some frame ->
  size_map !! key = Some frame
  \/ exists name file,
       (name, file) ∈ l /\ is_square file = true
       /\ key = (png_width file, png_height file) /\ frame = frame_of file.
Proof.
  revert size_map. induction l as [|[name file] l IH]; intros size_map Hk;
    [by left|].
  cbn [collect] in Hk. destruct (is_square file) eqn:Hsq.
  - destruct (IH _ Hk) as [Hm|(n & f & Hin & ?)].
    + destruct (decide ((png_width file, png_height file) = key)) as [<-|Hne].
      * rewrite lookup_insert_eq in Hm. injection Hm as <-.
        right. exists name, file. split; [by left|done].
      * rewrite lookup_insert_ne in Hm by done. by left.
    + right. exists n, f. split; [by right|done].
  - destruct (IH _ Hk) as [Hm|(n & f & Hin & ?)]; [by left|].
    right. exists n, f. split; [by right|done].
Qed.

Lemma collect_has (l : list (string * PngFile))
    (size_map : gmap (Z * Z) IconFrame) (name : string) (file : PngFile) :
  (name, file) ∈ l -> is_square file = true ->
  is_Some (collect l size_map !! (png_width file, png_height file)).
Proof.
  revert size_map. induction l as [|[n f] l IH]; intros size_map Hin Hsq;
    [by inv Hin|].
  apply elem_of_cons in Hin as [[= <- <-]|Hin].
  - cbn [collect]. rewrite Hsq. apply collect_keeps.
    rewrite lookup_insert_eq. eauto.
  - cbn [collect]. destruct (is_square f); by apply IH.
Qed.

Lemma skipped_skip_lines (l : list (string * PngFile)) :
  skipped l = skip_line <$> filter (fun p => is_square p.2 = false) l.
Proof.
  induction l as [|[name file] l IH]; [done|]. cbn [skipped].
  rewrite filter_cons. cbn [snd]. destruct (is_square file) eqn:Hsq.
  - rewrite decide_False by done. exact IH.
  - rewrite decide_True by done. rewrite fmap_cons. by rewrite IH.
Qed.

Lemma string_leb_trans (a b c : string) :
  String.leb a b = true -> String.leb b c = true -> String.leb a c = true.
Proof.
  rewrite <- !Is_true_true. apply (transitivity (R := String.le)).
Qed.

Section FrameCollectionMore.
Context (normcase : string -> string).

Lemma candidates_elem (entries : list (string * PngFile)) (name : string)
    (file : PngFile) :
  (name, file) ∈ candidates normcase entries
  <-> endswith (normcase name) ".png" = true /\ (name, file) ∈ entries.
Proof.
  unfold candidates. rewrite list_elem_of_filter. cbn [fst].
  by rewrite Is_true_true.
Qed.

(** The world that frame collection leaves. *)
Lemma load_square_pngs_state (folder : Path) (w : World) :
  (load_square_pngs normcase folder w).2
  = match folders w !! folder with
    | None => w
    | Some entries =>
        mkWorld (folders w) (dirs w) (files w)
          (stdout w ++ skipped (listing normcase entries))
    end.
Proof.
  rewrite load_square_pngs_run. destruct (folders w !! folder); [|done].
  cbn zeta. by destruct (bool_decide _).
Qed.

Lemma load_square_pngs_Ok_square (folder : Path) (w : World)
    (entries : list (string * PngFile)) (frames : list IconFrame) :
  folders w !! folder = Some entries ->
  (load_square_pngs normcase folder w).1 = Ok frames ->
  Exists (fun p => is_square p.2 = true) (candidates normcase entries).
Proof.
  intros Hf Hr.
  destruct (square_or_not (candidates normcase entries)) as [Hnone|Hsq]; [|done].
  by rewrite (load_square_pngs_none_square normcase _ _ entries) in Hr.
Qed.

(** X9. The frames that frame collection returns are never none; each is
    made of a square file of the folder whose name the pattern matches,
    with that file's size and its bytes unchanged as the payload; and every
    such file has a frame of its size among them. *)
Theorem load_square_pngs_provenance (folder : Path) (w : World)
    (entries : list (string * PngFile)) (frames : list IconFrame) :
  folders w !! folder = Some entries ->
  (load_square_pngs normcase folder w).1 = Ok frames ->
  frames <> []
  /\ (forall frame,
        frame ∈ frames ->
        exists name file,
          (name, file) ∈ entries
          /\ endswith (normcase name) ".png" = true
          /\ png_width file = png_height file
          /\ width frame = png_width file
          /\ height frame = png_height file
          /\ data frame = png_bytes file)
  /\ (forall name file,
        (name, file) ∈ entries ->
        endswith (normcase name) ".png" = true ->
        png_width file = png_height file ->
        exists frame,
          frame ∈ frames
          /\ width frame = png_width file /\ height frame = png_height file).
Proof.
  intros Hf Hr.
  pose proof (load_square_pngs_Ok_square folder w entries frames Hf Hr) as Hsq.
  destruct (load_square_pngs_frames normcase folder w entries Hf Hsq)
    as (frames' & Hr' & Hmem & _ & Hok & Hne).
  assert (frames' = frames) as -> by congruence.
  split; [done|]. split.
  - intros frame Hin. apply Hmem in Hin as [key Hk].
    apply collect_items in Hk as [Hk|(name & file & Hin & Hs & -> & ->)];
      [by rewrite lookup_empty in Hk|].
    rewrite listing_Permutation in Hin. apply candidates_elem in Hin as [Hp Hin].
    exists name, file. unfold is_square in Hs. apply Z.eqb_eq in Hs.
    repeat split; done.
  - intros name file Hin Hp Hs.
    assert (Hl : (name, file) ∈ listing normcase entries).
    { rewrite listing_Permutation. by apply candidates_elem. }
    destruct (collect_has _ ∅ name file Hl) as [frame Hk].
    { unfold is_square. by apply Z.eqb_eq. }
    exists frame. split; [apply Hmem; eauto|].
    destruct (Hok _ _ Hk) as (Hkey & _). by injection Hkey as -> ->.
Qed.

(** X10. The number of frames returned is the number of different widths
    among the square files that the pattern matches: one frame for each
    size, however many files have it. *)
Theorem load_square_pngs_count (folder : Path) (w : World)
    (entries : list (string * PngFile)) (frames : list IconFrame) :
  folders w !! folder = Some entries ->
  (load_square_pngs normcase folder w).1 = Ok frames ->
  length frames
  = size (list_to_set
            ((fun p => png_width p.2)
               <$> filter (fun p => is_square p.2 = true)
                     (candidates normcase entries)) : gset Z).
Proof.
  intros Hf Hr.
  pose proof (load_square_pngs_Ok_square folder w entries frames Hf Hr) as Hsq.
  destruct (load_square_pngs_frames normcase folder w entries Hf Hsq)
    as (frames' & Hr' & Hmem & Hasc & Hok & _).
  assert (frames' = frames) as -> by congruence.
  rewrite <- (length_fmap width frames).
  rewrite <- (size_list_to_set (C := gset Z) (width <$> frames))
    by by apply StronglySorted_lt_NoDup.
  f_equal. apply set_eq. intros x.
  rewrite !elem_of_list_to_set, !list_elem_of_fmap. split.
  - intros (frame & -> & Hin). apply Hmem in Hin as [key Hk].
    apply collect_items in Hk as [Hk|(name & file & Hin & Hs & -> & ->)];
      [by rewrite lookup_empty in Hk|].
    exists (name, file). split; [done|].
    apply list_elem_of_filter. split; [done|]. by rewrite <- listing_Permutation.
  - intros ([name file] & -> & Hin).
    apply list_elem_of_filter in Hin as [Hs Hin]. cbn [snd] in *.
    rewrite <- listing_Permutation in Hin.
    destruct (collect_has _ ∅ name file Hin Hs) as [frame Hk].
    exists frame. split; [|apply Hmem; eauto].
    destruct (Hok _ _ Hk) as (Hkey & _). by injection Hkey as -> _.
Qed.

(** X11. Frame collection changes nothing in the world but the console:
    for a folder that exists it prints one line for each matched file that
    is not square, with the file's name and size, in the order of the
    sorted paths, whether it then returns or raises; for a missing folder
    it prints nothing. *)
Theorem load_square_pngs_prints (folder : Path) (w : World) :
  let w' := (load_square_pngs normcase folder w).2 in
  folders w' = folders w /\ dirs w' = dirs w /\ files w' = files w
  /\ stdout w'
     = stdout w
       ++ match folders w !! folder with
          | None => []
          | Some entries =>
              skip_line <$> filter (fun p => is_square p.2 = false)
                              (listing normcase entries)
          end.
Proof.
  cbn zeta. rewrite load_square_pngs_state.
  destruct (folders w !! folder) as [entries|].
  - rewrite skipped_skip_lines. repeat split; reflexivity.
  - rewrite app_nil_r. repeat split; reflexivity.
Qed.

(** X12. The order in which the operating system lists the folder does
    not matter when the matched names differ from one another after
    [normcase]: the loop goes through the same files in the same order,
    and the result is the same. *)
Theorem load_square_pngs_enumeration (folder : Path) (w w' : World)
    (entries entries' : list (string * PngFile)) :
  folders w !! folder = Some entries ->
  folders w' !! folder = Some entries' ->
  entries ≡ₚ entries' ->
  NoDup ((fun p => normcase p.1) <$> candidates normcase entries) ->
  listing normcase entries = listing normcase entries'
  /\ (load_square_pngs normcase folder w).1
     = (load_square_pngs normcase folder w').1.
Proof.
  intros Hf Hf' Hp Hnd.
  assert (Hl : listing normcase entries = listing normcase entries').
  { unfold listing.
    change (sorted fst (path_leb normcase))
      with (sorted (A := string * PngFile)
              (fun p => normcase p.1) String.leb).
    apply sorted_Permutation_eq;
      [apply String.leb_total|apply string_leb_trans|apply String.leb_antisym
      |done|].
    unfold candidates. by rewrite Hp. }
  split; [done|]. rewrite !load_square_pngs_run, Hf, Hf'. cbn zeta.
  rewrite Hl. by destruct (bool_decide _).
Qed.
End FrameCollectionMore.

(** ** Conversions and [main] *)

Section Conversions.
Context (normcase : string -> string).

Lemma load_square_pngs_raises (folder : Path) (w : World) (e : exn) :
  (load_square_pngs normcase folder w).1 = Raise e ->
  e = FileNotFoundError folder \/ e = ValueError folder.
Proof.
  intros Hr. destruct (folders w !! folder) as [entries|] eqn:Hf.
  - destruct (square_or_not (candidates normcase entries)) as [Hnone|Hsq].
    + rewrite (load_square_pngs_none_square normcase _ _ entries) in Hr by done.
      right. congruence.
    + destruct (load_square_pngs_frames normcase folder w entries Hf Hsq)
        as (frames & Hr' & _). congruence.
  - rewrite load_square_pngs_missing in Hr by done. left. congruence.
Qed.

Lemma ico_bytes_raises (images : list IconFrame) (e : exn) :
  ico_bytes images = Raise e -> e = struct_error.
Proof.
  rewrite ico_bytes_eq. cbn zeta. destruct (frames_fit images); congruence.
Qed.

(** A conversion that succeeds: what it returns and the world it leaves. *)
Lemma convert_folder_success (source destination : Path) (w : World)
    (frames : list IconFrame) (out : list byte) :
  (load_square_pngs normcase source w).1 = Ok frames ->
  ico_bytes frames = Ok out ->
  let r := convert_folder normcase source destination w in
  r.1 = Ok tt
  /\ folders r.2 = folders w
  /\ files r.2 = <[destination := out]> (files w)
  /\ stdout r.2
     = stdout w ++ [Converting source destination]
       ++ match folders w !! source with
          | None => []
          | Some entries => skipped (listing normcase entries)
          end
       ++ [Wrote destination].
Proof.
  intros Hr Hout. cbn zeta. rewrite convert_folder_run.
  set (w1 := (print (Converting source destination) w).2).
  assert (Hr1 : (load_square_pngs normcase source w1).1 = Ok frames)
    by by rewrite <- (load_square_pngs_reads normcase source w w1).
  pose proof (load_square_pngs_state normcase source w1) as Hw2.
  destruct (load_square_pngs normcase source w1) as [r1 w2].
  cbn [fst snd] in Hr1, Hw2. subst r1 w2.
  rewrite write_ico_run, Hout. cbn zeta.
  change (folders w1) with (folders w).
  destruct (folders w !! source); cbn; rewrite <- ?app_assoc; done.
Qed.

(** A conversion that fails: the exception, and the files left alone. *)
Lemma convert_folder_raise (source destination : Path) (w : World) (e : exn) :
  (convert_folder normcase source destination w).1 = Raise e ->
  (e = FileNotFoundError source \/ e = ValueError source \/ e = struct_error)
  /\ files (convert_folder normcase source destination w).2 = files w
  /\ folders (convert_folder normcase source destination w).2 = folders w.
Proof.
  rewrite convert_folder_run.
  set (w1 := (print (Converting source destination) w).2).
  pose proof (load_square_pngs_raises source w1) as Hraise.
  destruct (load_square_pngs_world normcase source w1) as (Hfo & _ & Hfi).
  destruct (load_square_pngs normcase source w1) as [[images|e1] w2];
    cbn [fst snd] in *.
  - rewrite write_ico_run. cbn zeta.
    destruct (ico_bytes images) as [out|e2] eqn:Hout; [discriminate|].
    cbn [fst snd mkdir_parents files folders]. intros [= <-].
    apply ico_bytes_raises in Hout as ->. rewrite Hfi, Hfo. auto.
  - intros [= <-]. rewrite Hfi, Hfo.
    destruct (Hraise e1 eq_refl) as [->| ->]; auto.
Qed.

(** X13. A conversion from a folder that does not exist raises
    [FileNotFoundError] naming the folder, having printed its first line
    and done nothing else: no directory is made and no file written. *)
Theorem convert_folder_missing (source destination : Path) (w : World) :
  folders w !! source = None ->
  convert_folder normcase source destination w
  = (Raise (FileNotFoundError source),
     mkWorld (folders w) (dirs w) (files w)
       (stdout w ++ [Converting source destination])).
Proof.
  intros Hf. rewrite convert_folder_run, load_square_pngs_run.
  cbn [print snd folders]. by rewrite Hf.
Qed.

(** X14. A conversion that succeeds returns with the destination holding
    the container of the collected frames and every other file as it was;
    it has printed the line of its start, then one line for each matched
    file that is not square, then the line naming the file written. *)
Theorem convert_folder_effect (source destination : Path) (w : World)
    (entries : list (string * PngFile)) (frames : list IconFrame)
    (out : list byte) :
  folders w !! source = Some entries ->
  (load_square_pngs normcase source w).1 = Ok frames ->
  ico_bytes frames = Ok out ->
  let r := convert_folder normcase source destination w in
  r.1 = Ok tt
  /\ files r.2 = <[destination := out]> (files w)
  /\ stdout r.2
     = stdout w ++ [Converting source destination]
       ++ (skip_line <$> filter (fun p => is_square p.2 = false)
                           (listing normcase entries))
       ++ [Wrote destination].
Proof.
  intros Hf Hr Hout.
  destruct (convert_folder_success source destination w frames out Hr Hout)
    as (H1 & _ & H2 & H3).
  rewrite Hf, skipped_skip_lines in H3. done.
Qed.


Lemma run_tasks_cons (source destination : Path) (rest : list (Path * Path))
    (w : World) :
  run_tasks normcase ((source, destination) :: rest) w
  = match convert_folder normcase source destination w with
    | (Ok _, w') => run_tasks normcase rest w'
    | (Raise e, w') => (Raise e, w')
    end.
Proof. reflexivity. Qed.

(** X16. [main] raises [SystemExit], with the message that no conversion
    target was scheduled, exactly when both icons are skipped; it then has
    printed nothing and changed nothing. *)
Theorem main_nothing_scheduled (args : Namespace) (w : World) :
  (skip_appicon args = true /\ skip_clop args = true ->
   main normcase args w
   = (SystemExit "No conversion targets were scheduled.", w))
  /\ (forall message,
        (main normcase args w).1 = SystemExit message ->
        skip_appicon args = true /\ skip_clop args = true).
Proof.
  unfold main, schedule.
  destruct (skip_appicon args), (skip_clop args); cbn [negb app]; split;
    try (intros [? ?]; done); try done;
    intros message;
    match goal with
    | |- context [run_tasks normcase ?t w] =>
        destruct (run_tasks normcase t w) as [[?|?] ?]
    end; discriminate.
Qed.

(** X17. The tasks are run one after the other and the first failure ends
    the run: when the conversion of the application icon raises, [main]
    lets the exception through and the second icon is not converted, so
    that no file has changed. *)
Theorem main_stops_at_first_failure (args : Namespace) (w : World) (e : exn) :
  skip_appicon args = false ->
  (convert_folder normcase (appicon_src args) (appicon_dest args) w).1
  = Raise e ->
  main normcase args w
  = (Uncaught e,
     (convert_folder normcase (appicon_src args) (appicon_dest args) w).2)
  /\ files (main normcase args w).2 = files w.
Proof.
  intros Hskip Hr.
  destruct (convert_folder_raise _ _ w e Hr) as (_ & Hfi & _).
  assert (Hmain : main normcase args w
                  = (Uncaught e,
                     (convert_folder normcase (appicon_src args)
                        (appicon_dest args) w).2)).
  { unfold main, schedule. rewrite Hskip. cbn [negb app].
    destruct (skip_clop args); cbn [negb app]; rewrite run_tasks_cons;
      destruct (convert_folder normcase (appicon_src args)
                  (appicon_dest args) w) as [[?|e'] w'];
      cbn [fst snd] in *; congruence. }
  split; [exact Hmain|]. by rewrite Hmain.
Qed.

End Conversions.

(** ** The further properties, run on POSIX paths *)

Lemma load_square_pngs_provenance_witness :
  let entries := [("b.png"%string, rgba32); ("a.png"%string, rgb16);
                  ("banner.png"%string, banner);
                  ("icon.jpg"%string, palette16)] in
  [frame_of rgb16; frame_of rgba32] <> []
  /\ exists frame,
       frame ∈ [frame_of rgb16; frame_of rgba32]
       /\ width frame = 32 /\ height frame = 32.
Proof.
  cbn zeta.
  destruct (load_square_pngs_provenance posix_normcase icons
              (world_with [("b.png"%string, rgba32); ("a.png"%string, rgb16);
                           ("banner.png"%string, banner);
                           ("icon.jpg"%string, palette16)])
              [("b.png"%string, rgba32); ("a.png"%string, rgb16);
               ("banner.png"%string, banner); ("icon.jpg"%string, palette16)]
              [frame_of rgb16; frame_of rgba32])
    as (Hne & _ & Hall).
  - by vm_compute.
  - by vm_compute.
  - split; [exact Hne|].
    apply (Hall "b.png"%string rgba32); [|reflexivity|reflexivity].
    apply list_elem_of_here.
Defined.

Lemma load_square_pngs_count_witness :
  length [frame_of rgba16; frame_of rgba32] = 2%nat
  /\ size (list_to_set
             ((fun p : string * PngFile => png_width p.2)
                <$> filter (fun p : string * PngFile => is_square p.2 = true)
                      (candidates posix_normcase
                         [("c.png"%string, rgba32); ("a.png"%string, rgb16);
                          ("b.png"%string, rgba16)])) : gset Z) = 2%nat.
Proof.
  split; [reflexivity|].
  rewrite <- (load_square_pngs_count posix_normcase icons
                (world_with [("c.png"%string, rgba32); ("a.png"%string, rgb16);
                             ("b.png"%string, rgba16)])
                [("c.png"%string, rgba32); ("a.png"%string, rgb16);
                 ("b.png"%string, rgba16)]
                [frame_of rgba16; frame_of rgba32]).
  - reflexivity.
  - by vm_compute.
  - by vm_compute.
Defined.

Lemma load_square_pngs_enumeration_witness :
  listing posix_normcase [("b.png"%string, rgba32); ("a.png"%string, rgb16)]
  = listing posix_normcase [("a.png"%string, rgb16); ("b.png"%string, rgba32)]
  /\ (load_square_pngs posix_normcase icons
        (world_with [("b.png"%string, rgba32); ("a.png"%string, rgb16)])).1
     = (load_square_pngs posix_normcase icons
          (world_with [("a.png"%string, rgb16); ("b.png"%string, rgba32)])).1.
Proof.
  apply load_square_pngs_enumeration.
  - by vm_compute.
  - by vm_compute.
  - apply Permutation_swap.
  - apply (bool_decide_unpack _). by vm_compute.
Defined.

Lemma convert_folder_missing_witness :
  (convert_folder posix_normcase glyphs mark (world_with [])).1
  = Raise (FileNotFoundError glyphs)
  /\ files (convert_folder posix_normcase glyphs mark (world_with [])).2 = ∅.
Proof.
  rewrite (convert_folder_missing posix_normcase glyphs mark (world_with []))
    by by vm_compute.
  split; reflexivity.
Defined.

Lemma convert_folder_effect_witness :
  let w := world_with [("b.png"%string, rgba32); ("banner.png"%string, banner);
                       ("a.png"%string, rgb16)] in
  let r := convert_folder posix_normcase icons ico w in
  r.1 = Ok tt
  /\ (len <$> files r.2 !! ico) = Some 41
  /\ stdout r.2 = [Converting icons ico; Skipping "banner.png" 32 16; Wrote ico].
Proof.
  cbn zeta.
  destruct (convert_folder_effect posix_normcase icons ico
              (world_with [("b.png"%string, rgba32);
                           ("banner.png"%string, banner);
                           ("a.png"%string, rgb16)])
              [("b.png"%string, rgba32); ("banner.png"%string, banner);
               ("a.png"%string, rgb16)]
              [frame_of rgb16; frame_of rgba32]
              (match ico_bytes [frame_of rgb16; frame_of rgba32] with
               | Ok out => out | Raise _ => [] end))
    as (Hr & Hfi & Hso).
  - by vm_compute.
  - by vm_compute.
  - by vm_compute.
  - split; [exact Hr|]. rewrite Hfi, Hso. split; [|by vm_compute].
    rewrite lookup_insert_eq. by vm_compute.
Defined.


Lemma main_stops_at_first_failure_witness :
  let args := mkNamespace glyphs mark icons ico false false in
  let w := world_with [("a.png"%string, rgb16)] in
  (main posix_normcase args w).1 = Uncaught (FileNotFoundError glyphs)
  /\ files (main posix_normcase args w).2 = ∅.
Proof.
  cbn zeta.
  destruct (main_stops_at_first_failure posix_normcase
              (mkNamespace glyphs mark icons ico false false)
              (world_with [("a.png"%string, rgb16)])
              (FileNotFoundError glyphs)) as (Hm & Hfi).
  - reflexivity.
  - by vm_compute.
  - split; [by rewrite Hm|exact Hfi].
Defined.


(** ** The fields of an entry, and the default targets *)

(** X19. Every directory entry of a container reads back with the colour
    count 0, the reserved byte 0 and the planes field 1, and with the bit
    count and the payload length of the frame it stands for. *)
Theorem directory_entry_fields (images : list IconFrame) (out : list byte)
    (k : nat) (frame : IconFrame) :
  ico_bytes images = Ok out ->
  sorted width Z.leb images !! k = Some frame ->
  let e := read_entry out k in
  e_color_count e = 0 /\ e_reserved e = 0 /\ e_planes e = 1
  /\ e_bit_count e = bit_count frame
  /\ e_size e = len (data frame).
Proof.
  intros Hout Hk. cbn zeta.
  destruct (ico_bytes_read images out k frame Hout Hk) as [-> _].
  repeat split; reflexivity.
Qed.

Lemma directory_entry_fields_witness :
  exists out,
    ico_bytes [frame512; frame16] = Ok out
    /\ e_planes (read_entry out 1) = 1
    /\ e_bit_count (read_entry out 1) = 32
    /\ e_size (read_entry out 1) = 3.
Proof.
  exists (match ico_bytes [frame512; frame16] with
          | Ok out => out | Raise _ => [] end).
  split; [reflexivity|].
  destruct (directory_entry_fields [frame512; frame16] _ 1%nat frame512
              eq_refl eq_refl) as (_ & _ & Hp & Hb & Hs).
  split; [exact Hp|]. split; [exact Hb|exact Hs].
Defined.

(** X20. Whatever the root of the repository, a command line with no
    argument schedules the application icon and then the glyph, from two
    different folders to two different files of the one directory
    [installer/assets]: neither container can overwrite the other. *)
Theorem default_targets (ROOT : Path) :
  schedule (default_args ROOT)
  = [(DEFAULT_APPICON_SRC ROOT, DEFAULT_APPICON_DEST ROOT);
     (DEFAULT_CLOP_SRC ROOT, DEFAULT_CLOP_DEST ROOT)]
  /\ DEFAULT_APPICON_DEST ROOT <> DEFAULT_CLOP_DEST ROOT
  /\ DEFAULT_APPICON_SRC ROOT <> DEFAULT_CLOP_SRC ROOT
  /\ parent (DEFAULT_APPICON_DEST ROOT) = DEFAULT_OUTPUT_DIR ROOT
  /\ parent (DEFAULT_CLOP_DEST ROOT) = DEFAULT_OUTPUT_DIR ROOT.
Proof.
  split; [reflexivity|]. split; [|split; [|split]].
  - unfold DEFAULT_APPICON_DEST, DEFAULT_CLOP_DEST. intros H.
    apply app_inv_head in H. discriminate.
  - unfold DEFAULT_APPICON_SRC, DEFAULT_CLOP_SRC. intros H.
    apply app_inv_head in H. discriminate.
  - unfold parent, DEFAULT_APPICON_DEST. apply removelast_last.
  - unfold parent, DEFAULT_CLOP_DEST. apply removelast_last.
Qed.

(** * Frame collection: what it returns, and files the library does not open *)

Lemma getitems_sorted_keys (size_map : gmap (Z * Z) IconFrame) :
  size_map <> ∅ ->
  exists frames,
    getitems size_map (sorted id tuple_leb (map_to_list size_map).*1)
    = Ok frames
    /\ frames <> [].
Proof.
  intros Hne.
  set (keys := sorted id tuple_leb (map_to_list size_map).*1).
  assert (Hkeys : forall key, key ∈ keys <-> is_Some (size_map !! key)).
  { intros key. unfold keys. rewrite sorted_Permutation.
    rewrite list_elem_of_fmap. split.
    - intros ([k f] & -> & Hin). apply elem_of_map_to_list in Hin. eauto.
    - intros [f Hk]. exists (key, f). split; [done|].
      by apply elem_of_map_to_list. }
  destruct (getitems_ok size_map keys) as (frames & Hg & Hf2).
  { apply Forall_forall. intros key Hin. by apply Hkeys. }
  exists frames. split; [done|]. intros ->.
  apply Forall2_nil_inv_r in Hf2. apply Hne, map_empty. intros key.
  destruct (size_map !! key) as [frame|] eqn:Hk; [|done].
  assert (Hin : key ∈ keys) by (apply Hkeys; eauto).
  rewrite Hf2 in Hin. by inv Hin.
Qed.

Section FrameCollectionDiskFacts.
Context (normcase : string -> string).

Lemma load_loop_disk_run (paths : list (string * DiskFile))
    (size_map : gmap (Z * Z) IconFrame) (w : World) :
  load_loop_disk paths size_map w
  = (match first_failure paths with
     | Some e => Raise e
     | None => Ok (collect (opened_before paths) size_map)
     end,
     mkWorld (folders w) (dirs w) (files w)
       (stdout w ++ skipped (opened_before paths))).
Proof.
  revert size_map w.
  induction paths as [|[name [file|e]] rest IH]; intros size_map w.
  - cbn [load_loop_disk first_failure opened_before collect skipped].
    by rewrite app_nil_r, World_eta.
  - cbn [load_loop_disk first_failure opened_before collect skipped].
    unfold is_square. cbn [convert_RGBA Image_open im_width im_height].
    destruct (png_width file =? png_height file); cbn [negb].
    + apply IH.
    + unfold mbind, M_bind, print. rewrite IH.
      cbn [folders dirs files stdout]. by rewrite <- app_assoc.
  - cbn [load_loop_disk first_failure opened_before skipped]. unfold raise.
    by rewrite app_nil_r, World_eta.
Qed.

Lemma load_square_pngs_disk_run
    (disk : gmap Path (list (string * DiskFile))) (folder : Path) (w : World) :
  load_square_pngs_disk normcase disk folder w
  = match disk !! folder with
    | None => (Raise (FileNotFoundError folder), w)
    | Some entries =>
        let paths := listing_disk normcase entries in
        let size_map := collect (opened_before paths) ∅ in
        let w' := mkWorld (folders w) (dirs w) (files w)
                    (stdout w ++ skipped (opened_before paths)) in
        match first_failure paths with
        | Some e => (Raise e, w')
        | None =>
            if bool_decide (size size_map = 0%nat)
            then (Raise (ValueError folder), w')
            else (getitems size_map
                    (sorted id tuple_leb (map_to_list size_map).*1), w')
        end
    end.
Proof.
  unfold load_square_pngs_disk.
  destruct (disk !! folder) as [entries|] eqn:Hd.
  - rewrite bool_decide_eq_true_2 by eauto. cbn [negb].
    unfold mbind at 1. unfold M_bind at 1. unfold glob_png_disk at 1.
    rewrite Hd. cbn [default]. unfold mbind at 1. unfold M_bind at 1.
    rewrite load_loop_disk_run. fold (listing_disk normcase entries).
    cbn zeta. destruct (first_failure _); [reflexivity|].
    destruct (bool_decide _); reflexivity.
  - rewrite bool_decide_eq_false_2 by (by intros [? ?]). reflexivity.
Qed.

(** C7, as the code has it. Frame collection raises [FileNotFoundError]
    (MissingSource) naming the folder when the folder does not exist. When
    the folder exists and the image library opens every matched file, it
    raises [ValueError] (EmptyFrameSet) exactly when none of these files is
    square, returns a list of frames, never an empty one, exactly when one
    of them is, and raises nothing else. When the library does not open a
    matched file, its exception leaves frame collection from the first
    such file in the sorted order, whatever the other files are. *)
Theorem load_square_pngs_disk_outcomes
    (disk : gmap Path (list (string * DiskFile))) (folder : Path) (w : World) :
  let r := (load_square_pngs_disk normcase disk folder w).1 in
  match disk !! folder with
  | None => r = Raise (FileNotFoundError folder)
  | Some entries =>
      let paths := listing_disk normcase entries in
      match first_failure paths with
      | Some e => r = Raise e
      | None =>
          (r = Raise (ValueError folder)
           <-> Forall (fun p => is_square p.2 = false) (opened_before paths))
          /\ ((exists frames, r = Ok frames)
              <-> Exists (fun p => is_square p.2 = true)
                    (opened_before paths))
          /\ (forall frames, r = Ok frames -> frames <> [])
          /\ (forall e, r = Raise e -> e = ValueError folder)
      end
  end.
Proof.
  cbn zeta. rewrite load_square_pngs_disk_run.
  destruct (disk !! folder) as [entries|]; [|reflexivity]. cbn zeta.
  destruct (first_failure (listing_disk normcase entries)); [reflexivity|].
  set (files := opened_before (listing_disk normcase entries)).
  destruct (square_or_not files) as [Hnone|Hsome].
  - rewrite (collect_none_square files ∅ Hnone).
    rewrite bool_decide_eq_true_2 by apply map_size_empty. cbn [fst].
    split; [done|]. split; [|split; [done|by intros e [= <-]]].
    split; [by intros [frames ?]|].
    intros Hsq. destruct (square_not_both _ Hnone Hsq).
  - pose proof (collect_some_square files ∅ Hsome) as Hne.
    rewrite bool_decide_eq_false_2 by by apply map_size_non_empty_iff.
    cbn [fst]. destruct (getitems_sorted_keys _ Hne) as (frames & -> & Hfr).
    split; [|split; [|split; [by intros ? [= <-]|done]]].
    + split; [done|]. intros Hnone. destruct (square_not_both _ Hnone Hsome).
    + split; [done|]. intros _. by exists frames.
Qed.

Lemma on_disk_filter (entries : list (string * PngFile)) :
  filter (fun p : string * DiskFile => endswith (normcase p.1) ".png")
    (on_disk entries)
  = on_disk (candidates normcase entries).
Proof.
  unfold candidates, on_disk.
  induction entries as [|[name file] entries IH]; [done|].
  rewrite fmap_cons, !filter_cons. cbn [fst snd].
  destruct (decide _); [|exact IH]. by rewrite fmap_cons, IH.
Qed.

Lemma on_disk_sorted (entries : list (string * PngFile)) :
  sorted fst (path_leb normcase) (on_disk entries)
  = on_disk (sorted fst (path_leb normcase) entries).
Proof.
  unfold on_disk.
  assert (Hins : forall x l,
             insort fst (path_leb normcase) (x.1, Opens x.2)
               ((fun p : string * PngFile => (p.1, Opens p.2)) <$> l)
             = (fun p : string * PngFile => (p.1, Opens p.2))
                 <$> insort fst (path_leb normcase) x l).
  { intros x l. induction l as [|y l IHl]; [done|].
    rewrite fmap_cons. cbn [insort fst].
    destruct (path_leb normcase x.1 y.1); [done|].
    by rewrite fmap_cons, IHl. }
  induction entries as [|x entries IH]; [done|].
  rewrite fmap_cons. cbn [sorted foldr].
  fold (sorted fst (path_leb normcase) entries).
  fold (sorted fst (path_leb normcase)
          ((fun p : string * PngFile => (p.1, Opens p.2)) <$> entries)).
  by rewrite IH, Hins.
Qed.

Lemma on_disk_opened (entries : list (string * PngFile)) :
  first_failure (on_disk entries) = None
  /\ opened_before (on_disk entries) = entries.
Proof.
  unfold on_disk. induction entries as [|[name file] entries [IH1 IH2]]; [done|].
  rewrite fmap_cons. cbn [first_failure opened_before fst snd].
  by rewrite IH1, IH2.
Qed.

(** On folders of files that the library opens, frame collection over the
    disk is [load_square_pngs]. *)
Lemma load_square_pngs_disk_opened (folder : Path) (w : World) :
  load_square_pngs_disk normcase (on_disk <$> folders w) folder w
  = load_square_pngs normcase folder w.
Proof.
  rewrite load_square_pngs_disk_run, load_square_pngs_run, lookup_fmap.
  destruct (folders w !! folder) as [entries|]; [|reflexivity].
  cbn [fmap option_fmap option_map]. cbn zeta.
  unfold listing_disk. rewrite on_disk_filter, on_disk_sorted.
  fold (listing normcase entries).
  destruct (on_disk_opened (listing normcase entries)) as [-> ->].
  reflexivity.
Qed.
End FrameCollectionDiskFacts.

(** C7 as stated fails on a folder with a file that the library does not
    identify as an image: the folder exists and holds a square image, yet
    frame collection neither returns nor raises one of the two errors of
    the claim; the library's exception goes through. *)
Lemma unreadable_file_raises :
  let disk : gmap Path (list (string * DiskFile)) :=
    {[ icons := [("b.png"%string,
                  Fails (UnidentifiedImageError (icons ++ ["b.png"%string])));
                 ("a.png"%string, Opens rgb16)] ]} in
  let r := (load_square_pngs_disk posix_normcase disk icons
              (mkWorld ∅ ∅ ∅ [])).1 in
  is_Some (disk !! icons)
  /\ is_square rgb16 = true
  /\ r = Raise (UnidentifiedImageError (icons ++ ["b.png"%string]))
  /\ r <> Raise (FileNotFoundError icons)
  /\ r <> Raise (ValueError icons)
  /\ ~ exists frames, r = Ok frames.
Proof.
  cbn zeta.
  assert (Hr : (load_square_pngs_disk posix_normcase
                  {[ icons := [("b.png"%string,
                                Fails (UnidentifiedImageError
                                         (icons ++ ["b.png"%string])));
                               ("a.png"%string, Opens rgb16)] ]} icons
                  (mkWorld ∅ ∅ ∅ [])).1
               = Raise (UnidentifiedImageError (icons ++ ["b.png"%string])))
    by by vm_compute.
  rewrite Hr. split; [rewrite lookup_singleton_eq; eauto|].
  split; [reflexivity|].
  split; [reflexivity|]. split; [discriminate|]. split; [discriminate|].
  by intros [frames ?].
Qed.

Section FrameCollectionOrder.
Context (normcase : string -> string).

(** C5. For every folder with at least one square image among the files
    the pattern matches, frame collection returns frames, at least one,
    each the frame of a matched square file of the folder and one for the
    size of every such file, whose widths ascend strictly, hence with no
    width twice; the serializer keeps them in this order, and entry [k] of
    the directory it writes is the entry of the [k]-th frame. *)
Theorem load_square_pngs_ascending (folder : Path) (w : World)
    (entries : list (string * PngFile)) :
  folders w !! folder = Some entries ->
  Exists (fun p => is_square p.2 = true) (candidates normcase entries) ->
  exists frames,
    (load_square_pngs normcase folder w).1 = Ok frames
    /\ frames <> []
    /\ (forall frame,
          frame ∈ frames ->
          exists name file,
            (name, file) ∈ candidates normcase entries
            /\ is_square file = true
            /\ width frame = png_width file
            /\ height frame = png_height file
            /\ data frame = png_bytes file)
    /\ (forall name file,
          (name, file) ∈ candidates normcase entries ->
          is_square file = true ->
          exists frame, frame ∈ frames /\ width frame = png_width file)
    /\ StronglySorted Z.lt (width <$> frames)
    /\ NoDup (width <$> frames)
    /\ sorted width Z.leb frames = frames
    /\ forall out k frame,
         ico_bytes frames = Ok out ->
         frames !! k = Some frame ->
         read_entry out k
         = entry_of frame
             (6 + 16 * len frames + payload_total (take k frames)).
Proof.
  intros Hf Hsq.
  destruct (load_square_pngs_frames normcase folder w entries Hf Hsq)
    as (frames & Hr & Hmem & Hasc & Hok & Hne).
  assert (Hfix : sorted width Z.leb frames = frames)
    by by apply sorted_fixed, ascending_Sorted.
  exists frames. split; [done|]. split; [done|]. split; [|split].
  - intros frame Hin. apply Hmem in Hin as [key Hk].
    apply collect_items in Hk as [Hk|(name & file & Hin & Hs & -> & ->)];
      [by rewrite lookup_empty in Hk|].
    rewrite listing_Permutation in Hin. exists name, file.
    repeat split; done.
  - intros name file Hin Hs. rewrite <- listing_Permutation in Hin.
    destruct (collect_has _ ∅ name file Hin Hs) as [frame Hk].
    exists frame. split; [apply Hmem; eauto|].
    destruct (Hok _ _ Hk) as (Hkey & _). by injection Hkey as -> _.
  - split; [done|]. split; [by apply StronglySorted_lt_NoDup|].
    split; [done|]. intros out k frame Hout Hk.
    destruct (ico_bytes_read frames out k frame Hout) as [He _].
    + by rewrite Hfix.
    + by rewrite Hfix in He.
Qed.

(** X21. The last file of a size wins: when a square file is matched and
    no matched file of its size comes after it in the sorted order, the one
    frame of that width that frame collection returns has this file's bytes
    as its payload, whatever files of that size came before; and the
    container written for the frames holds these bytes as the payload of
    that frame's entry. *)
Theorem last_file_of_a_size_wins (folder : Path) (w : World)
    (entries before after : list (string * PngFile)) (name : string)
    (file : PngFile) :
  folders w !! folder = Some entries ->
  listing normcase entries = before ++ (name, file) :: after ->
  is_square file = true ->
  Forall (fun p => is_square p.2 = true ->
                   png_width p.2 <> png_width file) after ->
  exists frames,
    (load_square_pngs normcase folder w).1 = Ok frames
    /\ (exists frame,
          frame ∈ frames /\ width frame = png_width file
          /\ data frame = png_bytes file)
    /\ (forall frame,
          frame ∈ frames -> width frame = png_width file ->
          data frame = png_bytes file)
    /\ forall out,
         ico_bytes frames = Ok out ->
         exists k frame,
           frames !! k = Some frame
           /\ width frame = png_width file
           /\ read_payload out (read_entry out k) = png_bytes file.
Proof.
  intros Hf Hl Hsq Hafter.
  destruct (last_file_wins normcase folder w entries before after name file
              Hf Hl Hsq Hafter) as (frames & Hr & Hfix & Hin & Honly).
  exists frames. split; [done|]. split; [|split].
  - exists (frame_of file). by repeat split.
  - intros frame Hfr Hw. by rewrite (Honly frame).
  - intros out Hout. apply list_elem_of_lookup in Hin as [k Hk].
    exists k, (frame_of file). split; [done|]. split; [reflexivity|].
    destruct (ico_bytes_read frames out k (frame_of file) Hout) as [He Hp].
    + by rewrite Hfix.
    + by rewrite He.
Qed.
End FrameCollectionOrder.

Lemma load_square_pngs_ascending_witness :
  exists frames,
    (load_square_pngs posix_normcase icons
       (world_with [("b.png"%string, rgba32); ("a.png"%string, rgb16);
                    ("banner.png"%string, banner)])).1 = Ok frames
    /\ frames <> []
    /\ StronglySorted Z.lt (width <$> frames)
    /\ NoDup (width <$> frames)
    /\ sorted width Z.leb frames = frames.
Proof.
  destruct (load_square_pngs_ascending posix_normcase icons
              (world_with [("b.png"%string, rgba32); ("a.png"%string, rgb16);
                           ("banner.png"%string, banner)])
              [("b.png"%string, rgba32); ("a.png"%string, rgb16);
               ("banner.png"%string, banner)])
    as (frames & Hr & Hne & _ & _ & Hs & Hn & Hfix & _).
  - vm_compute. reflexivity.
  - vm_compute. left. reflexivity.
  - exists frames. repeat split; assumption.
Defined.

Lemma last_file_of_a_size_wins_witness :
  exists frames,
    (load_square_pngs posix_normcase icons
       (world_with [("c.png"%string, rgba32); ("b.png"%string, palette16);
                    ("a.png"%string, rgb16)])).1 = Ok frames
    /\ exists frame,
         frame ∈ frames /\ width frame = 16
         /\ data frame = png_bytes palette16.
Proof.
  destruct (last_file_of_a_size_wins posix_normcase icons
              (world_with [("c.png"%string, rgba32); ("b.png"%string, palette16);
                           ("a.png"%string, rgb16)])
              [("c.png"%string, rgba32); ("b.png"%string, palette16);
               ("a.png"%string, rgb16)]
              [("a.png"%string, rgb16)] [("c.png"%string, rgba32)]
              "b.png" palette16)
    as (frames & Hr & Hin & _).
  - vm_compute. reflexivity.
  - vm_compute. reflexivity.
  - reflexivity.
  - repeat constructor. vm_compute. congruence.
  - exists frames. split; assumption.
Defined.

(** C6 on the code. Of two files of one resolution the later one's
    payload is the one in the frames and in the container, as claimed, but
    not its bit depth: the later file here has no alpha channel, so that
    its depth is 24, and the frame and the directory entry have 32, the
    test for the alpha band being made on the image already converted to
    RGBA. *)
Theorem later_file_bit_depth :
  let entries := [("b.png"%string, rgb16); ("a.png"%string, rgba16)] in
  listing posix_normcase entries
  = [("a.png"%string, rgba16); ("b.png"%string, rgb16)]
  /\ (png_width rgba16, png_height rgba16) = (png_width rgb16, png_height rgb16)
  /\ source_bit_depth rgba16 = 32
  /\ source_bit_depth rgb16 = 24
  /\ exists frames out,
       (load_square_pngs posix_normcase icons (world_with entries)).1
       = Ok frames
       /\ frames = [mkIconFrame 16 16 32 (png_bytes rgb16)]
       /\ ico_bytes frames = Ok out
       /\ read_payload out (read_entry out 0) = png_bytes rgb16
       /\ e_bit_count (read_entry out 0) = 32
       /\ e_bit_count (read_entry out 0) <> source_bit_depth rgb16.
Proof.
  cbn zeta. split; [by vm_compute|]. split; [reflexivity|].
  split; [by vm_compute|]. split; [by vm_compute|].
  exists [mkIconFrame 16 16 32 (png_bytes rgb16)].
  exists (match ico_bytes [mkIconFrame 16 16 32 (png_bytes rgb16)] with
          | Ok out => out | Raise _ => [] end).
  split; [by vm_compute|]. split; [reflexivity|]. split; [reflexivity|].
  split; [by vm_compute|]. split; [by vm_compute|]. by vm_compute.
Qed.
